(** * Request pacing and completion caching in [gemini_integration.py]

    A shallow embedding of the two stateful pieces of the Gemini
    integration module: [RateLimiter] (the sliding one-minute window in
    [wait_if_needed]) and the completion cache of [AIAssistant]
    ([get_code_completion], [_add_to_cache], [clear_cache]).

    Modelling conventions.
    - Clock readings ([time.time()], [created_at]) are exact integers of
      seconds; the rounding of Python floats is not modelled.
    - A Python call either returns or raises: [result].  The state reached
      is returned in both cases, since mutations made before a [raise]
      persist.
    - [wait_if_needed] is a coroutine.  It is cut at its [await] points
      (the lock acquisition and [asyncio.sleep]); between two of them the
      event loop runs the code without interleaving.  In [wait_if_needed]
      a sleep ends at its deadline; [wait_if_needed_late] lets it end any
      time after, and carries the statements on what is recorded when.
    - A [dict] is an association list in insertion order, which is the
      order Python iterates it in. *)

From Stdlib Require Import ZArith List String Ascii Bool Lia QArith.
From Stdlib Require Import Sorted Permutation.
Import ListNotations.
Open Scope string_scope.
Open Scope list_scope.
Open Scope Z_scope.

(** ** Python values *)

Inductive exn : Type :=
| ValueError.   (* [min()] of an empty sequence *)

Inductive result (A : Type) : Type :=
| Ok (a : A)
| Raise (e : exn).
Arguments Ok {A} a.
Arguments Raise {A} e.

(** [len(l)] as a Python int. *)
Definition len {A : Type} (l : list A) : Z := Z.of_nat (List.length l).

(** [min(l, key=f)]: the first element whose key is smallest; the running
    candidate is replaced only by a strictly smaller one. *)
Fixpoint min_from {A : Type} (f : A -> Z) (best : A) (l : list A) : A :=
  match l with
  | [] => best
  | x :: rest => min_from f (if f x <? f best then x else best) rest
  end.

Definition py_min_by {A : Type} (f : A -> Z) (l : list A) : result A :=
  match l with
  | [] => Raise ValueError
  | x :: rest => Ok (min_from f x rest)
  end.

(** [min(l)] on numbers. *)
Definition py_min (l : list Z) : result Z := py_min_by (fun x => x) l.

(** ** [dict] with [str] keys, in insertion order *)

Definition dict (V : Type) : Type := list (string * V).

Definition keys {V : Type} (d : dict V) : list string := map fst d.

(** [d[k]] ([None] stands for [KeyError]). *)
Fixpoint getitem {V : Type} (k : string) (d : dict V) : option V :=
  match d with
  | [] => None
  | (k', v) :: rest => if String.eqb k k' then Some v else getitem k rest
  end.

(** [k in d] *)
Definition contains {V : Type} (k : string) (d : dict V) : bool :=
  match getitem k d with Some _ => true | None => false end.

(** [d[k] = v]: an existing key keeps its place, a new one goes last. *)
Fixpoint setitem {V : Type} (k : string) (v : V) (d : dict V) : dict V :=
  match d with
  | [] => [(k, v)]
  | (k', v') :: rest =>
      if String.eqb k k' then (k', v) :: rest else (k', v') :: setitem k v rest
  end.

(** [del d[k]] *)
Fixpoint delitem {V : Type} (k : string) (d : dict V) : dict V :=
  match d with
  | [] => []
  | (k', v') :: rest =>
      if String.eqb k k' then rest else (k', v') :: delitem k rest
  end.

(** ** Data classes *)

Record AIRequest : Type := mkAIRequest {
  prompt : string;
  context : string;
  max_tokens : Z;
  temperature : Q;
  stream : bool;
  request_type : string
}.

Record AIResponse : Type := mkAIResponse {
  content : string;
  finish_reason : string;
  usage : list (string * Z);
  model : string;
  created_at : Z
}.

(** ** class RateLimiter *)

Record RateLimiter : Type := mkRateLimiter {
  requests_per_minute : Z;
  request_times : list Z;
  lock : bool              (* [asyncio.Lock]: [true] while held *)
}.

(** Where a call of [wait_if_needed] stands. *)
Inductive coroutine : Type :=
| AtLock                         (* at [async with self.lock], not yet inside *)
| Parked (now until : Z)         (* inside [await asyncio.sleep], due at [until] *)
| Returned
| Raised (e : exn).

(** What a caller gets from a call that is run to its end. *)
Inductive outcome : Type :=
| ReturnedAt (t : Z)
| RaisedAt (e : exn) (t : Z)
| Blocked.                       (* the lock is held and nobody releases it *)

Module RateLimiter.

Definition __init__ (requests_per_minute : Z) : result RateLimiter :=
  Ok {| requests_per_minute := requests_per_minute;
        request_times := [];
        lock := false |}.

Definition set_request_times (v : list Z) (self : RateLimiter) : RateLimiter :=
  {| requests_per_minute := requests_per_minute self;
     request_times := v;
     lock := lock self |}.

Definition set_lock (b : bool) (self : RateLimiter) : RateLimiter :=
  {| requests_per_minute := requests_per_minute self;
     request_times := request_times self;
     lock := b |}.

(** [[t for t in self.request_times if now - t < 60]] *)
Definition purge (now : Z) (times : list Z) : list Z :=
  filter (fun req_time => now - req_time <? 60) times.

(** [self.request_times.append(now)], then the exit of [async with]. *)
Definition record_request (now : Z) (self : RateLimiter) : RateLimiter :=
  set_lock false (set_request_times (request_times self ++ [now]) self).

(** The body from the moment the lock is taken, at clock reading [now],
    up to the next [await] or the end of the call. *)
Definition enter (now : Z) (self : RateLimiter) : coroutine * RateLimiter :=
  let self := set_lock true self in
  let self := set_request_times (purge now (request_times self)) self in
  if len (request_times self) >=? requests_per_minute self then
    match py_min (request_times self) with
    | Raise e => (Raised e, set_lock false self)
    | Ok oldest_request =>
        let wait_time := 60 - (now - oldest_request) in
        if wait_time >? 0
        then (Parked now (now + wait_time), self)
        else (Returned, record_request now self)
    end
  else (Returned, record_request now self).

(** One scheduling of the coroutine by the event loop at time [clock]. *)
Definition step (clock : Z) (c : coroutine) (self : RateLimiter)
  : coroutine * RateLimiter :=
  match c with
  | AtLock => if lock self then (AtLock, self) else enter clock self
  | Parked now until =>
      if until <=? clock then (Returned, record_request now self)
      else (Parked now until, self)
  | Returned => (Returned, self)
  | Raised e => (Raised e, self)
  end.

(** A call that reaches the lock at time [t], run until it leaves.  A call
    that sleeps is resumed here at the deadline of its sleep, the earliest
    time at which [asyncio.sleep] can return. *)
Definition wait_if_needed (t : Z) (self : RateLimiter) : outcome * RateLimiter :=
  match step t AtLock self with
  | (Parked now until, self1) =>
      match step until (Parked now until) self1 with
      | (Returned, self2) => (ReturnedAt until, self2)
      | (_, self2) => (Blocked, self2)
      end
  | (Returned, self1) => (ReturnedAt t, self1)
  | (Raised e, self1) => (RaisedAt e t, self1)
  | (AtLock, self1) => (Blocked, self1)
  end.

(** The time at which the caller is back in control. *)
Definition finished_at (now : Z) (o : outcome) : Z :=
  match o with
  | ReturnedAt t => t
  | RaisedAt _ t => t
  | Blocked => now
  end.

(** Callers arriving at the given times.  The lock serves them one at a
    time in arrival order, so a caller enters once it has arrived and its
    predecessor has left. *)
Fixpoint run (arrivals : list Z) (clock : Z) (self : RateLimiter)
  : list outcome * (Z * RateLimiter) :=
  match arrivals with
  | [] => ([], (clock, self))
  | a :: rest =>
      let now := Z.max a clock in
      let '(o, self1) := wait_if_needed now self in
      let '(os, final) := run rest (finished_at now o) self1 in
      (o :: os, final)
  end.

(** Times at which calls returned. *)
Fixpoint return_times (os : list outcome) : list Z :=
  match os with
  | [] => []
  | ReturnedAt t :: rest => t :: return_times rest
  | _ :: rest => return_times rest
  end.

(** How many of [times] lie in the 60 seconds that end at [t]. *)
Definition in_window (t : Z) (times : list Z) : Z :=
  len (filter (fun r => (t - r <? 60) && (r <=? t)) times).

End RateLimiter.

(** ** class AIAssistant *)

(** Truth value of an [Optional[str]]: [None] and the empty string are
    false. *)
Definition truthy (cache_key : option string) : bool :=
  match cache_key with
  | None => false
  | Some s => negb (String.eqb s "")
  end.

Section Assistant.

(** [GeminiCLIService] is a collaborator outside this development: its
    state is abstract and [generate_completion] is any function of the
    request and that state.  It holds no reference to the assistant. *)
Variable GeminiCLIService : Type.
Variable generate_completion :
  AIRequest -> GeminiCLIService -> AIResponse * GeminiCLIService.

Record AIAssistant : Type := mkAIAssistant {
  gemini_service : GeminiCLIService;
  completion_cache : dict AIResponse;
  cache_max_size : Z
}.

Definition __init__ (service : GeminiCLIService) : AIAssistant :=
  {| gemini_service := service;
     completion_cache := [];
     cache_max_size := 100 |}.

Definition set_completion_cache (d : dict AIResponse) (self : AIAssistant)
  : AIAssistant :=
  {| gemini_service := gemini_service self;
     completion_cache := d;
     cache_max_size := cache_max_size self |}.

Definition set_gemini_service (s : GeminiCLIService) (self : AIAssistant)
  : AIAssistant :=
  {| gemini_service := s;
     completion_cache := completion_cache self;
     cache_max_size := cache_max_size self |}.

(** [lambda k: self.completion_cache[k].created_at] *)
Definition age_key (d : dict AIResponse) (k : string) : Z :=
  match getitem k d with
  | Some r => created_at r
  | None => 0
  end.

Definition _add_to_cache (key : string) (response : AIResponse)
  (self : AIAssistant) : result unit * AIAssistant :=
  if len (completion_cache self) >=? cache_max_size self then
    match py_min_by (age_key (completion_cache self))
                    (keys (completion_cache self)) with
    | Raise e => (Raise e, self)
    | Ok oldest_key =>
        let self := set_completion_cache
                      (delitem oldest_key (completion_cache self)) self in
        (Ok tt, set_completion_cache
                  (setitem key response (completion_cache self)) self)
    end
  else
    (Ok tt, set_completion_cache
              (setitem key response (completion_cache self)) self).

(** The cache check that opens [get_code_completion]; [now] is the
    reading of [time.time()] there. *)
Definition cached_response (cache_key : option string) (now : Z)
  (d : dict AIResponse) : option AIResponse :=
  match cache_key with
  | Some k =>
      if truthy cache_key && contains k d then
        match getitem k d with
        | Some cached =>
            if now - created_at cached <? 300 then Some cached else None
        | None => None
        end
      else None
  | None => None
  end.

Definition get_code_completion (code : string) (context : string)
  (cache_key : option string) (now : Z) (self : AIAssistant)
  : result AIResponse * AIAssistant :=
  match cached_response cache_key now (completion_cache self) with
  | Some cached => (Ok cached, self)
  | None =>
      let request := {| prompt := code;
                        context := context;
                        max_tokens := 512;
                        temperature := 3 # 10;
                        stream := false;
                        request_type := "completion" |} in
      let '(response, service) :=
        generate_completion request (gemini_service self) in
      let self := set_gemini_service service self in
      match cache_key with
      | Some k =>
          if truthy cache_key
             && negb (String.eqb (finish_reason response) "error") then
            match _add_to_cache k response self with
            | (Ok _, self) => (Ok response, self)
            | (Raise e, self) => (Raise e, self)
            end
          else (Ok response, self)
      | None => (Ok response, self)
      end
  end.

Definition clear_cache (self : AIAssistant) : AIAssistant :=
  set_completion_cache [] self.

(** ["cache_size"] of [get_stats]. *)
Definition cache_size (self : AIAssistant) : Z := len (completion_cache self).

(** Calls a client of the assistant can make on the cache. *)
Inductive op : Type :=
| Complete (code context : string) (cache_key : option string) (now : Z)
| Put (key : string) (response : AIResponse)
| Clear.

Definition apply_op (o : op) (self : AIAssistant) : AIAssistant :=
  match o with
  | Complete code context cache_key now =>
      snd (get_code_completion code context cache_key now self)
  | Put key response => snd (_add_to_cache key response self)
  | Clear => clear_cache self
  end.

Definition apply_ops (os : list op) (self : AIAssistant) : AIAssistant :=
  fold_left (fun s o => apply_op o s) os self.

End Assistant.

Arguments gemini_service {GeminiCLIService} _.
Arguments completion_cache {GeminiCLIService} _.
Arguments cache_max_size {GeminiCLIService} _.
Arguments mkAIAssistant {GeminiCLIService} _ _ _.
Arguments __init__ {GeminiCLIService} service.
Arguments _add_to_cache {GeminiCLIService} key response self.
Arguments get_code_completion {GeminiCLIService} generate_completion
  code context cache_key now self.
Arguments clear_cache {GeminiCLIService} self.
Arguments cache_size {GeminiCLIService} self.
Arguments set_completion_cache {GeminiCLIService} d self.
Arguments set_gemini_service {GeminiCLIService} s self.
Arguments apply_op {GeminiCLIService} generate_completion o self.
Arguments apply_ops {GeminiCLIService} generate_completion os self.

(** ** Scenarios and properties named by the statements below *)

(** A limiter is constructed and callers arrive from time [t0] on. *)
Definition session (requests_per_minute t0 : Z) (arrivals : list Z)
  : result (list outcome * (Z * RateLimiter)) :=
  match RateLimiter.__init__ requests_per_minute with
  | Ok self => Ok (RateLimiter.run arrivals t0 self)
  | Raise e => Raise e
  end.

(** No 60-second interval holds more returns than the limit. *)
Definition within_limit (limit : Z) (os : list outcome) : Prop :=
  forall t, RateLimiter.in_window t (RateLimiter.return_times os) <= limit.

(** Construction is refused. *)
Definition rejected (requests_per_minute : Z) : Prop :=
  exists e, RateLimiter.__init__ requests_per_minute = Raise e.

(** Every recorded time is at most 60 seconds before [t]. *)
Definition all_recent (t : Z) (self : RateLimiter) : Prop :=
  Forall (fun s => t - s <= 60) (request_times self).


(** Between calls: the lock is free and the recorded times are those of
    the last 60 seconds up to [clock]. *)
Definition settled (clock : Z) (self : RateLimiter) : Prop :=
  lock self = false /\
  Forall (fun s => clock - 60 <= s <= clock) (request_times self).

(** A response as the service builds it at time [t]. *)
Definition response_at (text : string) (t : Z) : AIResponse :=
  {| content := text;
     finish_reason := "stop";
     usage := [("prompt_tokens", 0); ("completion_tokens", 0);
               ("total_tokens", 0)];
     model := "gemini-pro";
     created_at := t |}.

(** A stand-in service whose state is its clock: it answers with the
    prompt, stamped with the clock, and the clock moves on. *)
Definition echo_service (request : AIRequest) (clock : Z) : AIResponse * Z :=
  (response_at (prompt request) clock, clock + 1).

(** One-character keys ["0"], ["1"], ... *)
Definition key_of (n : nat) : string :=
  String (ascii_of_nat (48 + n)) EmptyString.

(** Completions for [n] different cache keys, one per second. *)
Definition fill (n : nat) : list op :=
  map (fun i => Complete "code" "" (Some (key_of i)) (Z.of_nat i)) (seq 0 n).

(** The request [get_code_completion] sends to the service. *)
Definition completion_request (code context : string) : AIRequest :=
  {| prompt := code;
     context := context;
     max_tokens := 512;
     temperature := 3 # 10;
     stream := false;
     request_type := "completion" |}.

(** The cache holds at most [m] entries and [m] is its configured size. *)
Definition bounded {S : Type} (m : Z) (self : AIAssistant S) : Prop :=
  cache_max_size self = m /\ len (completion_cache self) <= m.

(** Calls that go through the public methods; [Put] is the private
    [_add_to_cache] called directly. *)
Definition public (o : op) : bool :=
  match o with
  | Put _ _ => false
  | _ => true
  end.

(** ** Further scenarios *)

(** The times at which callers enter when none of them is made to wait:
    each enters on arrival, or when its predecessor entered if that is
    later. *)
Fixpoint entry_times (clock : Z) (arrivals : list Z) : list Z :=
  match arrivals with
  | [] => []
  | a :: rest => Z.max a clock :: entry_times (Z.max a clock) rest
  end.

(** The outcome is a return no earlier than [a]. *)
Definition returned_from (a : Z) (o : outcome) : Prop :=
  exists t, o = ReturnedAt t /\ a <= t.

(** Times of return of the calls that did not sleep, that is, that
    returned at the very time they entered. *)
Fixpoint prompt_returns (arrivals : list Z) (clock : Z) (self : RateLimiter)
  : list Z :=
  match arrivals with
  | [] => []
  | a :: rest =>
      let now := Z.max a clock in
      let '(o, self1) := RateLimiter.wait_if_needed now self in
      let later := prompt_returns rest (RateLimiter.finished_at now o) self1 in
      match o with
      | ReturnedAt t => if t =? now then now :: later else later
      | _ => later
      end
  end.

(** What links the calls served at once so far, [served], to the recorded
    times: from [clock] on, a purge leaves at least as many recorded times
    as it would leave of [served]; and no window holds more than the limit
    of [served]. *)
Definition paced (clock : Z) (self : RateLimiter) (served : list Z) : Prop :=
  settled clock self /\
  (forall u, clock <= u ->
     len (RateLimiter.purge u served)
     <= len (RateLimiter.purge u (request_times self))) /\
  (forall t, RateLimiter.in_window t served <= requests_per_minute self).

(** No cached response is an error response. *)
Definition no_error_cached (d : dict AIResponse) : Prop :=
  Forall (fun kv => finish_reason (snd kv) <> "error") d.

(** ** str

    A [str] is a Rocq [string], one character for each code point below
    256.  [lower] changes the letters A to Z only; the other characters
    Python's [lower()] changes in that range are not ASCII and stay
    outside ASCII, so tests for ASCII keywords are not affected. *)

Definition ascii_lower (c : ascii) : ascii :=
  if (Ascii.leb "A" c && Ascii.leb c "Z")%bool
  then ascii_of_nat (nat_of_ascii c + 32)
  else c.

Definition ascii_upper (c : ascii) : ascii :=
  if (Ascii.leb "a" c && Ascii.leb c "z")%bool
  then ascii_of_nat (nat_of_ascii c - 32)
  else c.

(** [s.lower()] *)
Fixpoint lower (s : string) : string :=
  match s with
  | EmptyString => EmptyString
  | String c rest => String (ascii_lower c) (lower rest)
  end.

(** [s.capitalize()] *)
Definition capitalize (s : string) : string :=
  match s with
  | EmptyString => EmptyString
  | String c rest => String (ascii_upper c) (lower rest)
  end.

(** [needle in s] *)
Fixpoint str_in (needle s : string) : bool :=
  prefix needle s
  || match s with
     | EmptyString => false
     | String _ rest => str_in needle rest
     end.

(** [any(keyword in s for keyword in keywords)] *)
Definition any_in (keywords : list string) (s : string) : bool :=
  existsb (fun keyword => str_in keyword s) keywords.

(** [s[:n]] and [s[-n:]] for a positive [n] *)
Definition first_chars (n : nat) (s : string) : string := substring 0 n s.

Definition last_chars (n : nat) (s : string) : string :=
  substring (String.length s - n) n s.

(** [l[-n:]] and [l[:-n]] for a positive [n] *)
Definition last_items {A : Type} (n : nat) (l : list A) : list A :=
  skipn (List.length l - n) l.

Definition drop_last {A : Type} (n : nat) (l : list A) : list A :=
  firstn (List.length l - n) l.

(** [sorted(l, key=f)]: the sort is stable, so an element goes in front
    of the first one whose key is not smaller than its own. *)
Fixpoint insert_sorted {A : Type} (f : A -> Z) (x : A) (l : list A) : list A :=
  match l with
  | [] => [x]
  | y :: rest =>
      if f y <? f x then y :: insert_sorted f x rest else x :: y :: rest
  end.

Fixpoint py_sorted {A : Type} (f : A -> Z) (l : list A) : list A :=
  match l with
  | [] => []
  | x :: rest => insert_sorted f x (py_sorted f rest)
  end.

Definition nl : string := String (ascii_of_nat 10) EmptyString.

(** ** class GeminiCLIService *)

(** An entry of [conversation_history]: the dict with keys ["role"] and
    ["content"]. *)
Record message : Type := mkMessage {
  role : string;
  said : string
}.

(** An entry of [code_context]: the dict with keys ["content"],
    ["language"] and ["updated_at"]. *)
Record context_entry : Type := mkContextEntry {
  source : string;
  language : string;
  updated_at : Z
}.

Record GeminiCLIService : Type := mkGeminiCLIService {
  authenticated : bool;
  model_name : string;
  rate_limiter : RateLimiter;
  conversation_history : list message;
  code_context : dict context_entry
}.

(** What a suspended call gives once it is run to its end. *)
Inductive awaited (A : Type) : Type :=
| Completed (a : A)
| Failed (e : exn)
| Suspended.            (* still waiting for the lock *)
Arguments Completed {A} a.
Arguments Failed {A} e.
Arguments Suspended {A}.

(** How a run of [gcloud ai models predict] ends, as [_batch_completion]
    sees it. *)
Inductive gcloud_run : Type :=
| Predicted (text : string)   (* exit code 0; the content extracted from the JSON on stdout *)
| Refused (stderr : string)   (* another exit code *)
| Crashed (reason : string).  (* an exception inside the [try]; [str(e)] *)

Definition _detect_language (context : string) : string :=
  if String.eqb context "" then "text"
  else
    let context_lower := lower context in
    if any_in ["def "; "import "; "class "; "__init__"; "self."] context_lower
    then "python"
    else if any_in ["function "; "var "; "let "; "const "; "=>"] context_lower
    then "javascript"
    else if any_in ["public class"; "private "; "public static"] context_lower
    then "java"
    else if any_in ["#include"; "int main"; "std::"] context_lower
    then "cpp"
    else if any_in ["<html>"; "<div>"; "<script>"] context_lower
    then "html"
    else if any_in ["{"; "}"; "margin:"; "padding:"] context_lower
    then "css"
    else "text".

Definition _build_completion_prompt (code context : string) : string :=
  let language := _detect_language context in
  "You are an expert " ++ language
  ++ " programmer. Complete the following code intelligently." ++ nl
  ++ nl
  ++ "Context:" ++ nl
  ++ "```" ++ language ++ nl
  ++ last_chars 1000 context ++ "  # Last 1000 chars for context" ++ nl
  ++ "```" ++ nl
  ++ nl
  ++ "Complete this code:" ++ nl
  ++ "```" ++ language ++ nl
  ++ code.

Definition history_line (entry : message) : string :=
  capitalize (role entry) ++ ": " ++ first_chars 500 (said entry) ++ nl.

Definition _build_chat_prompt (message context : string)
  (self : GeminiCLIService) : string :=
  let language := _detect_language context in
  let history_text :=
    fold_left (fun text entry => (text ++ history_line entry)%string)
              (last_items 10 (conversation_history self)) "" in
  "You are an expert programming assistant. Help with coding questions and provide clear, accurate answers."
  ++ nl
  ++ nl
  ++ "Current code context (" ++ language ++ "):" ++ nl
  ++ "```" ++ language ++ nl
  ++ (if String.eqb context "" then "No code context available"
      else last_chars 800 context) ++ nl
  ++ "```" ++ nl
  ++ nl
  ++ "Conversation history:" ++ nl
  ++ history_text ++ nl
  ++ nl
  ++ "User: " ++ message ++ nl
  ++ "Assistant:".

(** [AIResponse(content=..., finish_reason=..., model=...)] built at time
    [now]: [__post_init__] fills in [usage] and [created_at]. *)
Definition new_response (content finish_reason model : string) (now : Z)
  : AIResponse :=
  {| content := content;
     finish_reason := finish_reason;
     usage := [("prompt_tokens", 0); ("completion_tokens", 0);
               ("total_tokens", 0)];
     model := model;
     created_at := now |}.

(** [str(e)] for the [TypeError] raised by [await] on the async generator
    that [_stream_completion] returns (the wording is the interpreter's;
    this is the one of CPython 3.8 to 3.13). *)
Definition await_async_generator : string :=
  "object async_generator can't be used in 'await' expression".

Definition set_rate_limiter (r : RateLimiter) (self : GeminiCLIService)
  : GeminiCLIService :=
  {| authenticated := authenticated self;
     model_name := model_name self;
     rate_limiter := r;
     conversation_history := conversation_history self;
     code_context := code_context self |}.

Definition set_conversation_history (h : list message)
  (self : GeminiCLIService) : GeminiCLIService :=
  {| authenticated := authenticated self;
     model_name := model_name self;
     rate_limiter := rate_limiter self;
     conversation_history := h;
     code_context := code_context self |}.

Definition set_code_context (d : dict context_entry)
  (self : GeminiCLIService) : GeminiCLIService :=
  {| authenticated := authenticated self;
     model_name := model_name self;
     rate_limiter := rate_limiter self;
     conversation_history := conversation_history self;
     code_context := d |}.

Definition clear_conversation_history (self : GeminiCLIService)
  : GeminiCLIService :=
  set_conversation_history [] self.

(** [now] is the reading of [time.time()].  [del] is applied to keys taken
    from the dict itself, so it finds each of them. *)
Definition update_code_context (file_path content : string) (now : Z)
  (self : GeminiCLIService) : GeminiCLIService :=
  let self :=
    set_code_context
      (setitem file_path
         {| source := content;
            language := _detect_language content;
            updated_at := now |}
         (code_context self)) self in
  if len (code_context self) >? 10 then
    let sorted_contexts :=
      py_sorted (fun x => updated_at (snd x)) (code_context self) in
    fold_left (fun self old => set_code_context
                                 (delitem (fst old) (code_context self)) self)
              (drop_last 10 sorted_contexts) self
  else self.

Section Service.

(** The machine outside the process: all that decides how a run of
    [gcloud] ends and how long it takes (in seconds).  The state the
    methods run in is the service, the clock and that machine. *)
Variable World : Type.
Variable gcloud_predict :
  string -> string -> AIRequest -> World -> gcloud_run * N * World.

Definition _batch_completion (self : GeminiCLIService) (text : string)
  (request : AIRequest) (env : Z * World) : AIResponse * (Z * World) :=
  let '(clock, world) := env in
  let '(run, elapsed, world) :=
    gcloud_predict (model_name self) text request world in
  let now := clock + Z.of_N elapsed in
  (match run with
   | Predicted content =>
       new_response content "stop" (model_name self) now
   | Refused stderr =>
       let error_msg :=
         if String.eqb stderr "" then "Unknown error" else stderr in
       new_response ("// API Error: " ++ error_msg) "error" "" now
   | Crashed reason =>
       new_response ("// Error: " ++ reason) "error" "" now
   end, (now, world)).

Definition generate_completion (request : AIRequest)
  (self : GeminiCLIService) (env : Z * World)
  : awaited AIResponse * (GeminiCLIService * (Z * World)) :=
  let '(clock, world) := env in
  if negb (authenticated self) then
    (Completed (new_response "// Please authenticate with Google Cloud first"
                             "error" "" clock),
     (self, env))
  else
    match RateLimiter.wait_if_needed clock (rate_limiter self) with
    | (ReturnedAt t, limiter) =>
        let self := set_rate_limiter limiter self in
        let text :=
          _build_completion_prompt (prompt request) (context request) in
        if stream request then
          (Completed (new_response
                        ("// Error generating completion: "
                         ++ await_async_generator) "error" "" t),
           (self, (t, world)))
        else
          let '(response, env) :=
            _batch_completion self text request (t, world) in
          (Completed response, (self, env))
    | (RaisedAt e t, limiter) =>
        (Failed e, (set_rate_limiter limiter self, (t, world)))
    | (Blocked, limiter) =>
        (Suspended, (set_rate_limiter limiter self, env))
    end.

Definition chat_completion (message context : string)
  (self : GeminiCLIService) (env : Z * World)
  : awaited AIResponse * (GeminiCLIService * (Z * World)) :=
  let '(clock, world) := env in
  if negb (authenticated self) then
    (Completed (new_response "Please authenticate with Google Cloud first."
                             "error" "" clock),
     (self, env))
  else
    match RateLimiter.wait_if_needed clock (rate_limiter self) with
    | (ReturnedAt t, limiter) =>
        let self := set_rate_limiter limiter self in
        let self :=
          set_conversation_history
            (conversation_history self ++ [mkMessage "user" message]) self in
        let chat_prompt := _build_chat_prompt message context self in
        let request := {| prompt := chat_prompt;
                          context := context;
                          max_tokens := 2048;
                          temperature := 8 # 10;
                          stream := false;
                          request_type := "chat" |} in
        let '(response, env) :=
          _batch_completion self chat_prompt request (t, world) in
        if negb (String.eqb (finish_reason response) "error") then
          let self :=
            set_conversation_history
              (conversation_history self
               ++ [mkMessage "assistant" (content response)]) self in
          let self :=
            if len (conversation_history self) >? 20
            then set_conversation_history
                   (last_items 20 (conversation_history self)) self
            else self in
          (Completed response, (self, env))
        else (Completed response, (self, env))
    | (RaisedAt e t, limiter) =>
        (Failed e, (set_rate_limiter limiter self, (t, world)))
    | (Blocked, limiter) =>
        (Suspended, (set_rate_limiter limiter self, env))
    end.

End Service.

Arguments _batch_completion {World} gcloud_predict self text request env.
Arguments generate_completion {World} gcloud_predict request self env.
Arguments chat_completion {World} gcloud_predict message context self env.

(** The slices of [words] that [_stream_completion] yields, before each is
    joined with spaces: [words[i:i + chunk_size]] for [i] in
    [range(0, len(words), chunk_size)]. *)
Definition range_step (stop step : nat) : list nat :=
  map (fun k => k * step)%nat (seq 0 ((stop + step - 1) / step)).

Definition stream_slices (words : list string) : list (list string) :=
  let chunk_size := Nat.max 1 (List.length words / 10) in
  map (fun i => firstn chunk_size (skipn i words))
      (range_step (List.length words) chunk_size).

(** [' '.join(chunk)] for each slice. *)
Definition stream_chunks (words : list string) : list string :=
  map (String.concat " ") (stream_slices words).

(** A [gcloud] that answers every prompt with the same text after one
    second, and one that always exits with an error. *)
Definition canned_gcloud (text : string) (model text' : string)
  (request : AIRequest) (world : unit) : gcloud_run * N * unit :=
  (Predicted text, 1%N, world).

Definition failing_gcloud (model text : string) (request : AIRequest)
  (world : unit) : gcloud_run * N * unit :=
  (Refused "", 1%N, world).

(** A series of [update_code_context] calls, each with the file, its
    content and the reading of the clock. *)
Definition apply_updates (updates : list (string * string * Z))
  (self : GeminiCLIService) : GeminiCLIService :=
  fold_left (fun self u =>
               update_code_context (fst (fst u)) (snd (fst u)) (snd u) self)
            updates self.

(** A service that tracks the [n] files ["0"], ["1"], ..., the [i]-th
    updated at time [i]. *)
Definition tracking (n : nat) : GeminiCLIService :=
  mkGeminiCLIService true "gemini-pro" (mkRateLimiter 60 [] false) []
    (map (fun i => (key_of i, mkContextEntry "x" "text" (Z.of_nat i)))
         (seq 0 n)).

(** [f] is [generate_completion] seen as the service of an assistant: it
    gives the response and the state that [generate_completion] gives
    whenever that call completes. *)
Definition serves {World : Type}
  (gcloud_predict :
     string -> string -> AIRequest -> World -> gcloud_run * N * World)
  (f : AIRequest -> GeminiCLIService * (Z * World)
       -> AIResponse * (GeminiCLIService * (Z * World))) : Prop :=
  forall request self env response state,
    generate_completion gcloud_predict request self env
    = (Completed response, state) ->
    f request (self, env) = (response, state).

(** One such function; where the call does not complete it answers with
    an empty error response. *)
Definition service_of {World : Type}
  (gcloud_predict :
     string -> string -> AIRequest -> World -> gcloud_run * N * World)
  (request : AIRequest) (s : GeminiCLIService * (Z * World))
  : AIResponse * (GeminiCLIService * (Z * World)) :=
  match generate_completion gcloud_predict request (fst s) (snd s) with
  | (Completed response, state) => (response, state)
  | (_, state) => (new_response "" "error" "" 0, state)
  end.

(** A service that is authenticated, with a new limiter of 60 requests
    per minute and no history. *)
Definition ready_service : GeminiCLIService :=
  mkGeminiCLIService true "gemini-pro" (mkRateLimiter 60 [] false) [] [].

Definition anonymous_service : GeminiCLIService :=
  mkGeminiCLIService false "gemini-pro" (mkRateLimiter 60 [] false) [] [].

(** ** Sleeps that end late

    [asyncio.sleep] returns at or after its deadline.  Below, a call that
    sleeps is resumed [late] seconds after the deadline; with [late = 0]
    this is [RateLimiter.wait_if_needed]. *)

Definition wait_if_needed_late (late : N) (t : Z) (self : RateLimiter)
  : outcome * RateLimiter :=
  match RateLimiter.step t AtLock self with
  | (Parked now until, self1) =>
      let woken := until + Z.of_N late in
      match RateLimiter.step woken (Parked now until) self1 with
      | (Returned, self2) => (ReturnedAt woken, self2)
      | (_, self2) => (Blocked, self2)
      end
  | (Returned, self1) => (ReturnedAt t, self1)
  | (Raised e, self1) => (RaisedAt e t, self1)
  | (AtLock, self1) => (Blocked, self1)
  end.

(** Callers given by their time of arrival and by how late their sleep,
    if any, ends; they are served one at a time in arrival order. *)
Fixpoint run_late (calls : list (Z * N)) (clock : Z) (self : RateLimiter)
  : list outcome * (Z * RateLimiter) :=
  match calls with
  | [] => ([], (clock, self))
  | (a, late) :: rest =>
      let now := Z.max a clock in
      let '(o, self1) := wait_if_needed_late late now self in
      let '(os, final) :=
        run_late rest (RateLimiter.finished_at now o) self1 in
      (o :: os, final)
  end.

Definition session_late (requests_per_minute t0 : Z) (calls : list (Z * N))
  : result (list outcome * (Z * RateLimiter)) :=
  match RateLimiter.__init__ requests_per_minute with
  | Ok self => Ok (run_late calls t0 self)
  | Raise e => Raise e
  end.

(** Between calls, however late sleeps ended: the lock is free and, if
    anything is recorded, the last recorded time is the time at which the
    last call entered; it is not after [clock], and the times recorded
    before it are less than 60 seconds older than it. *)
Definition entered_recently (clock : Z) (self : RateLimiter) : Prop :=
  lock self = false /\
  (request_times self = [] \/
   exists earlier entered,
     request_times self = earlier ++ [entered] /\
     entered <= clock /\
     Forall (fun s => entered - 60 < s <= entered) earlier).

(** * Properties *)

(** ** Python built-ins *)

Lemma len_nonneg {A : Type} (l : list A) : 0 <= len l.
Proof. unfold len. lia. Qed.

Lemma len_app {A : Type} (l1 l2 : list A) : len (l1 ++ l2) = len l1 + len l2.
Proof. unfold len. rewrite length_app. lia. Qed.

Lemma min_from_In {A : Type} (f : A -> Z) (l : list A) :
  forall best, In (min_from f best l) (best :: l).
Proof.
  induction l as [|x rest IH]; intros best; simpl.
  - now left.
  - destruct (IH (if f x <? f best then x else best)) as [E | HIn].
    + destruct (f x <? f best); rewrite <- E; auto.
    + auto.
Qed.

Lemma min_from_le {A : Type} (f : A -> Z) (l : list A) :
  forall best y, In y (best :: l) -> f (min_from f best l) <= f y.
Proof.
  induction l as [|x rest IH]; intros best y HIn; simpl.
  - destruct HIn as [-> | []]. lia.
  - assert (Hstep : f (if f x <? f best then x else best) <= f best /\
                    f (if f x <? f best then x else best) <= f x).
    { destruct (Z.ltb_spec (f x) (f best)); lia. }
    pose proof (IH (if f x <? f best then x else best) _ (or_introl eq_refl)).
    destruct HIn as [<- | [<- | HIn]]; [lia | lia |].
    apply IH. now right.
Qed.

(** [min(l, key=f)] splits [l] around its result: strictly larger keys
    before it, no smaller key after it. *)
Lemma min_from_first {A : Type} (f : A -> Z) (l : list A) :
  forall best, exists before after,
    best :: l = before ++ min_from f best l :: after /\
    (forall y, In y before -> f (min_from f best l) < f y) /\
    (forall y, In y after -> f (min_from f best l) <= f y).
Proof.
  induction l as [|x rest IH]; intros best.
  - exists [], []. simpl. repeat split; intros y [].
  - simpl. destruct (Z.ltb_spec (f x) (f best)) as [Hlt | Hge].
    + destruct (IH x) as (before & after & E & Hb & Ha).
      exists (best :: before), after. rewrite E. repeat split; auto.
      intros y [<- | HIn]; auto.
      pose proof (min_from_le f rest x x (or_introl eq_refl)). lia.
    + destruct (IH best) as (before & after & E & Hb & Ha).
      remember (min_from f best rest) as m eqn:Hm. clear Hm IH.
      destruct before as [|b before']; simpl in E; injection E as E1 E2.
      * subst m rest. exists [], (x :: after). split; [reflexivity | split].
        -- intros y [].
        -- intros y [<- | HIn]; auto.
      * subst b rest. exists (best :: x :: before'), after.
        split; [reflexivity | split]; auto.
        intros y [<- | [<- | HIn]].
        -- apply Hb. now left.
        -- specialize (Hb best (or_introl eq_refl)). lia.
        -- apply Hb. now right.
Qed.

Lemma py_min_spec (l : list Z) :
  l <> [] ->
  exists m, py_min l = Ok m /\ In m l /\ forall y, In y l -> m <= y.
Proof.
  destruct l as [|x rest]; [congruence | intros _].
  exists (min_from (fun z => z) x rest). repeat split.
  - apply min_from_In.
  - intros y HIn. apply (min_from_le (fun z => z) rest x y HIn).
Qed.

(** ** RateLimiter *)

Section Limiter.
Import RateLimiter.

Lemma purge_In (now s : Z) (times : list Z) :
  In s (purge now times) <-> In s times /\ now - s < 60.
Proof.
  unfold purge. rewrite filter_In. rewrite Z.ltb_lt. tauto.
Qed.

Lemma purge_fresh (now : Z) (times : list Z) :
  Forall (fun s => now - s < 60) (purge now times).
Proof.
  apply Forall_forall. intros s HIn. now apply purge_In in HIn.
Qed.


(** [enter] with the field updates carried out. *)
Lemma enter_unfold (now : Z) (self : RateLimiter) :
  enter now self =
    let times := purge now (request_times self) in
    let limit := requests_per_minute self in
    if len times >=? limit then
      match py_min times with
      | Raise e => (Raised e, mkRateLimiter limit times false)
      | Ok oldest =>
          if 60 - (now - oldest) >? 0
          then (Parked now (now + (60 - (now - oldest))),
                mkRateLimiter limit times true)
          else (Returned, mkRateLimiter limit (times ++ [now]) false)
      end
    else (Returned, mkRateLimiter limit (times ++ [now]) false).
Proof. reflexivity. Qed.

(** The whole call, when the lock is free on arrival. *)
Lemma wait_if_needed_unlocked (now : Z) (self : RateLimiter) :
  lock self = false ->
  wait_if_needed now self =
    let times := purge now (request_times self) in
    let limit := requests_per_minute self in
    if len times >=? limit then
      match py_min times with
      | Raise e => (RaisedAt e now, mkRateLimiter limit times false)
      | Ok oldest =>
          if 60 - (now - oldest) >? 0
          then (ReturnedAt (now + (60 - (now - oldest))),
                mkRateLimiter limit (times ++ [now]) false)
          else (ReturnedAt now, mkRateLimiter limit (times ++ [now]) false)
      end
    else (ReturnedAt now, mkRateLimiter limit (times ++ [now]) false).
Proof.
  intros Hfree. unfold wait_if_needed, step. rewrite Hfree.
  unfold enter. cbn -[purge py_min Z.geb Z.gtb Z.sub Z.add].
  destruct (len (purge now (request_times self)) >=? requests_per_minute self);
    [| reflexivity].
  destruct (py_min (purge now (request_times self))) as [oldest | e];
    [| reflexivity].
  destruct (60 - (now - oldest) >? 0); [| reflexivity].
  cbn -[purge Z.sub Z.add]. now rewrite Z.leb_refl.
Qed.

Lemma wait_if_needed_settled (clock now : Z) (self : RateLimiter) :
  settled clock self -> clock <= now ->
  settled (finished_at now (fst (wait_if_needed now self)))
          (snd (wait_if_needed now self)).
Proof.
  intros [Hfree Hold] Hnow. rewrite (wait_if_needed_unlocked now self Hfree).
  cbv zeta.
  assert (Hkept : forall s, In s (purge now (request_times self)) ->
                            now - 60 < s <= now).
  { intros s HIn. apply purge_In in HIn as [HIn Hs].
    rewrite Forall_forall in Hold. specialize (Hold s HIn). lia. }
  assert (Hplain : settled now
            (mkRateLimiter (requests_per_minute self)
               (purge now (request_times self) ++ [now]) false)).
  { split; [reflexivity |]. cbn. apply Forall_app. split.
    - apply Forall_forall. intros s HIn. specialize (Hkept s HIn). lia.
    - constructor; [lia | constructor]. }
  destruct (len (purge now (request_times self)) >=? requests_per_minute self);
    [| exact Hplain].
  destruct (purge now (request_times self)) as [|s0 rest] eqn:Epurge.
  - cbn. split; [reflexivity | constructor].
  - destruct (py_min_spec (s0 :: rest)) as (oldest & -> & HIn & Hle);
      [discriminate |].
    destruct (Z.gtb_spec (60 - (now - oldest)) 0); [| exact Hplain].
    split; [reflexivity |]. cbn -[Z.add Z.sub].
    pose proof (Hkept oldest HIn).
    constructor; [specialize (Hkept s0 (or_introl eq_refl));
                  specialize (Hle s0 (or_introl eq_refl)); lia |].
    apply Forall_app. split.
    + apply Forall_forall. intros s Hs.
      specialize (Hkept s (or_intror Hs)). specialize (Hle s (or_intror Hs)).
      lia.
    + constructor; [lia | constructor].
Qed.

Lemma run_settled (arrivals : list Z) :
  forall clock self, settled clock self ->
    settled (fst (snd (run arrivals clock self)))
            (snd (snd (run arrivals clock self))).
Proof.
  induction arrivals as [|a rest IH]; intros clock self Hs; [exact Hs |].
  simpl.
  pose proof (wait_if_needed_settled clock (Z.max a clock) self Hs
                (Z.le_max_r a clock)) as Hnext.
  destruct (wait_if_needed (Z.max a clock) self) as [o self1].
  cbn [fst snd] in Hnext. specialize (IH _ _ Hnext).
  destruct (run rest (finished_at (Z.max a clock) o) self1) as [os final].
  exact IH.
Qed.

End Limiter.

Section LimiterStatements.
Import RateLimiter.

(** C1 (fails on the code).  The claim: over any sequence of calls, no
    trailing 60-second window holds more admissions than
    [requests_per_minute].  With limit 1 and three callers arriving at
    t=0, the calls return at 0, 60 and 60: two admissions in the window
    that ends at 60.  The second call sleeps but records the time it read
    before sleeping, so at t=60 both recorded zeros are purged and the
    third call finds the window empty. *)
Theorem three_callers_overrun_limit_one :
  exists os final,
    session 1 0 [0; 0; 0] = Ok (os, final) /\
    return_times os = [0; 60; 60] /\
    in_window 60 (return_times os) = 2 /\
    ~ within_limit 1 os.
Proof.
  exists [ReturnedAt 0; ReturnedAt 60; ReturnedAt 60],
         (60, mkRateLimiter 1 [60] false).
  split; [reflexivity |]. split; [reflexivity |]. split; [reflexivity |].
  intros H. specialize (H 60). vm_compute in H. now apply H.
Qed.

(** The same with the limit the service uses, 60: of 121 simultaneous
    callers, 60 return at t=0 and 61 at t=60. *)
Lemma default_limit_overrun :
  exists os final,
    session 60 0 (repeat 0 121) = Ok (os, final) /\
    in_window 60 (return_times os) = 61 /\
    ~ within_limit 60 os.
Proof.
  destruct (session 60 0 (repeat 0 121)) as [[os final] | e] eqn:E;
    vm_compute in E; [| discriminate E].
  injection E as <- <-.
  eexists. eexists. split; [reflexivity |]. split; [vm_compute; reflexivity |].
  intros H. specialize (H 60). vm_compute in H. now apply H.
Qed.

(** The list of recorded times itself can be longer than the limit. *)
Lemma recorded_times_exceed_limit :
  exists os clock self,
    session 1 0 [0; 0] = Ok (os, (clock, self)) /\
    request_times self = [0; 0] /\
    requests_per_minute self < len (request_times self).
Proof.
  exists [ReturnedAt 0; ReturnedAt 60], 60, (mkRateLimiter 1 [0; 0] false).
  repeat split; reflexivity.
Qed.

(** C2, as stated, fails: a limiter with limit 0 is constructed. *)
Lemma construction_accepts_zero : 0 <= 0 /\ ~ rejected 0.
Proof.
  split; [lia |]. intros [e H]. discriminate H.
Qed.

(** C2 (amended).  Constructing a [RateLimiter] succeeds for every
    [requests_per_minute], positive or not: the result carries that limit,
    no recorded time and a free lock.  There is no configuration check and
    no window parameter. *)
Theorem construction_always_succeeds :
  forall requests_per_minute : Z,
    __init__ requests_per_minute =
      Ok (mkRateLimiter requests_per_minute [] false).
Proof.
  intros. reflexivity.
Qed.

(** With a limit of 0 or less the failure comes at the first use: [min]
    is applied to an empty list. *)
Lemma nonpositive_limit_raises_on_use (requests_per_minute t0 a : Z) :
  requests_per_minute <= 0 ->
  session requests_per_minute t0 [a] =
    Ok ([RaisedAt ValueError (Z.max a t0)],
        (Z.max a t0, mkRateLimiter requests_per_minute [] false)).
Proof.
  intros Hle. unfold session, __init__, run.
  rewrite wait_if_needed_unlocked by reflexivity. cbn -[Z.max Z.geb].
  destruct (Z.geb_spec 0 requests_per_minute); [reflexivity | lia].
Qed.

(** C6, as stated, fails: after one call at t=0 the recorded time 0 is
    still in [request_times] at t=100, long after it left the window. *)
Lemma stale_time_kept_between_calls :
  exists os clock self,
    session 1 0 [0] = Ok (os, (clock, self)) /\
    clock <= 100 /\
    ~ all_recent 100 self.
Proof.
  exists [ReturnedAt 0], 0, (mkRateLimiter 1 [0] false).
  split; [reflexivity |]. split; [lia |].
  intros H. apply Forall_inv in H. lia.
Qed.

(** At a return that follows a sleep the oldest recorded time is exactly
    60 seconds old, so it is not strictly inside the window either. *)
Lemma oldest_time_on_the_boundary :
  exists os clock self,
    session 1 0 [0; 1] = Ok (os, (clock, self)) /\
    clock = 60 /\ request_times self = [0; 1].
Proof.
  exists [ReturnedAt 0; ReturnedAt 60], 60, (mkRateLimiter 1 [0; 1] false).
  repeat split; reflexivity.
Qed.

(** With a wake-up one second late the call returns at t=61 with the
    time 0 recorded twice: at a return recorded times can be more than 60
    seconds old. *)
Lemma late_wake_up_leaves_older_times :
  wait_if_needed_late 1 0 (mkRateLimiter 1 [0] false)
  = (ReturnedAt 61, mkRateLimiter 1 [0; 0] false).
Proof. reflexivity. Qed.

(** The whole call when the lock is free on arrival and the sleep, if
    any, ends [late] seconds after its deadline. *)
Lemma wait_if_needed_late_unlocked (late : N) (now : Z) (self : RateLimiter) :
  lock self = false ->
  wait_if_needed_late late now self =
    let times := purge now (request_times self) in
    let limit := requests_per_minute self in
    if len times >=? limit then
      match py_min times with
      | Raise e => (RaisedAt e now, mkRateLimiter limit times false)
      | Ok oldest =>
          if 60 - (now - oldest) >? 0
          then (ReturnedAt (now + (60 - (now - oldest)) + Z.of_N late),
                mkRateLimiter limit (times ++ [now]) false)
          else (ReturnedAt now, mkRateLimiter limit (times ++ [now]) false)
      end
    else (ReturnedAt now, mkRateLimiter limit (times ++ [now]) false).
Proof.
  intros Hfree. unfold wait_if_needed_late, step. rewrite Hfree, enter_unfold.
  cbv zeta.
  destruct (len (purge now (request_times self)) >=? requests_per_minute self);
    [| reflexivity].
  destruct (py_min (purge now (request_times self))) as [oldest | e];
    [| reflexivity].
  destruct (60 - (now - oldest) >? 0); [| reflexivity].
  destruct (Z.leb_spec (now + (60 - (now - oldest)))
                       (now + (60 - (now - oldest)) + Z.of_N late));
    [reflexivity | lia].
Qed.

(** With [late = 0] this is [wait_if_needed]. *)
Lemma wait_if_needed_late_punctual (now : Z) (self : RateLimiter) :
  wait_if_needed_late 0 now self = wait_if_needed now self.
Proof.
  unfold wait_if_needed_late, wait_if_needed.
  destruct (step now AtLock self) as [[| now' until | | e] self1];
    try reflexivity.
  cbv zeta. change (Z.of_N 0) with 0. now rewrite Z.add_0_r.
Qed.

Lemma wait_if_needed_late_entered (late : N) (clock now : Z)
  (self : RateLimiter) :
  entered_recently clock self -> clock <= now ->
  entered_recently
    (finished_at now (fst (wait_if_needed_late late now self)))
    (snd (wait_if_needed_late late now self)).
Proof.
  intros [Hfree Hold] Hnow.
  rewrite (wait_if_needed_late_unlocked late now self Hfree). cbv zeta.
  assert (Hkept : Forall (fun s => now - 60 < s <= now)
                         (purge now (request_times self))).
  { apply Forall_forall. intros s HIn. apply purge_In in HIn as [HIn Hs].
    destruct Hold as [E | (earlier & entered & E & Hle & Hall)];
      rewrite E in HIn; [destruct HIn |].
    apply in_app_or in HIn as [HIn | [<- | []]]; [| lia].
    rewrite Forall_forall in Hall. specialize (Hall s HIn). lia. }
  assert (Hplain : forall t, now <= t ->
            entered_recently t
              (mkRateLimiter (requests_per_minute self)
                 (purge now (request_times self) ++ [now]) false)).
  { intros t Ht. split; [reflexivity |]. right.
    exists (purge now (request_times self)), now. auto. }
  destruct (len (purge now (request_times self)) >=? requests_per_minute self);
    [| apply Hplain; cbn [fst finished_at]; lia].
  destruct (purge now (request_times self)) as [|s0 rest] eqn:Epurge.
  - split; [reflexivity | now left].
  - destruct (py_min_spec (s0 :: rest)) as (oldest & -> & HIn & _);
      [discriminate |].
    rewrite Forall_forall in Hkept. specialize (Hkept oldest HIn).
    rewrite <- Epurge in *.
    destruct (Z.gtb_spec (60 - (now - oldest)) 0); apply Hplain;
      cbn [fst finished_at]; lia.
Qed.

Lemma run_late_entered (calls : list (Z * N)) :
  forall clock self, entered_recently clock self ->
    entered_recently (fst (snd (run_late calls clock self)))
                     (snd (snd (run_late calls clock self))).
Proof.
  induction calls as [|[a late] rest IH]; intros clock self Hs; [exact Hs |].
  simpl.
  pose proof (wait_if_needed_late_entered late clock (Z.max a clock) self Hs
                (Z.le_max_r a clock)) as Hnext.
  destruct (wait_if_needed_late late (Z.max a clock) self) as [o self1].
  cbn [fst snd] in Hnext. specialize (IH _ _ Hnext).
  destruct (run_late rest (finished_at (Z.max a clock) o) self1)
    as [os final].
  exact IH.
Qed.

(** C6 (amended).  However late the sleeps of earlier calls ended:
    [request_times] is empty or ends with a time that is not after the
    current time, and the times recorded before it are less than 60
    seconds older than it and not after it.  That last time is the time of
    entry of the last call that returned: a call entering at [now] leaves
    the times its purge kept followed by [now], or nothing when it raises.
    And at every admission decision, that is right after the purge of a
    call entering at [now], every recorded time is less than 60 seconds
    before [now].  Nothing is purged after a sleep or between calls, so
    measured from the time of a return recorded times can be older than 60
    seconds. *)
Theorem recorded_times_recent_at_entry :
  forall (requests_per_minute t0 : Z) (calls : list (Z * N)),
  exists os clock self,
    session_late requests_per_minute t0 calls = Ok (os, (clock, self)) /\
    (request_times self = [] \/
     exists earlier entered,
       request_times self = earlier ++ [entered] /\
       entered <= clock /\
       Forall (fun s => entered - 60 < s <= entered) earlier) /\
    (forall late now,
       exists o self',
         wait_if_needed_late late now self = (o, self') /\
         (request_times self' = purge now (request_times self) ++ [now] \/
          request_times self' = [] /\ o = RaisedAt ValueError now)) /\
    forall now,
      Forall (fun s => now - s < 60)
             (request_times (snd (enter now self))).
Proof.
  intros limit t0 calls. unfold session_late, __init__.
  pose proof (run_late_entered calls t0 (mkRateLimiter limit [] false)) as H.
  destruct (run_late calls t0 (mkRateLimiter limit [] false))
    as [os [clock self]].
  exists os, clock, self. split; [reflexivity |].
  destruct H as [Hfree H]; [split; [reflexivity | now left] |].
  cbn [fst snd] in H, Hfree. split; [exact H |]. split.
  { intros late now. rewrite wait_if_needed_late_unlocked by assumption.
    cbv zeta.
    destruct (len (purge now (request_times self))
                >=? requests_per_minute self);
      [| do 2 eexists; split; [reflexivity | now left]].
    destruct (purge now (request_times self)) as [|s0 rest] eqn:Epurge.
    - do 2 eexists. split; [reflexivity |]. right. split; reflexivity.
    - destruct (py_min_spec (s0 :: rest)) as (oldest & -> & _);
        [discriminate |].
      destruct (60 - (now - oldest) >? 0);
        do 2 eexists; (split; [reflexivity | now left]). }
  intros now. rewrite enter_unfold. cbv zeta.
  assert (Hfresh := purge_fresh now (request_times self)).
  assert (Hall : Forall (fun s => now - s < 60)
                   (purge now (request_times self) ++ [now])).
  { apply Forall_app. split; [exact Hfresh |].
    constructor; [lia | constructor]. }
  destruct (len (purge now (request_times self))
              >=? requests_per_minute self); [| exact Hall].
  destruct (py_min (purge now (request_times self))) as [oldest | e];
    [| exact Hfresh].
  destruct (60 - (now - oldest) >? 0); [exact Hfresh | exact Hall].
Qed.


(** Below the limit a call returns at once. *)
Lemma free_window_returns_at_once (now : Z) (self : RateLimiter) :
  lock self = false ->
  len (purge now (request_times self)) < requests_per_minute self ->
  wait_if_needed now self =
    (ReturnedAt now,
     mkRateLimiter (requests_per_minute self)
                   (purge now (request_times self) ++ [now]) false).
Proof.
  intros Hfree Hlt. rewrite wait_if_needed_unlocked by assumption. cbv zeta.
  destruct (Z.geb_spec (len (purge now (request_times self)))
                       (requests_per_minute self)); [lia | reflexivity].
Qed.

(** C7.  When the count of recorded times left by the purge reaches
    [requests_per_minute] (a positive limit), the call sleeps for exactly
    [60 - (now - oldest)] seconds, [oldest] being the least recorded time,
    and returns at the end of that sleep.  The duration is always positive
    there, since the purge keeps only times less than 60 seconds old. *)
Theorem full_window_sleeps_until_oldest_expires :
  forall (now : Z) (self : RateLimiter),
    lock self = false ->
    0 < requests_per_minute self ->
    requests_per_minute self <= len (purge now (request_times self)) ->
    exists oldest,
      py_min (purge now (request_times self)) = Ok oldest /\
      In oldest (purge now (request_times self)) /\
      (forall s, In s (purge now (request_times self)) -> oldest <= s) /\
      0 < 60 - (now - oldest) /\
      step now AtLock self =
        (Parked now (now + (60 - (now - oldest))),
         mkRateLimiter (requests_per_minute self)
                       (purge now (request_times self)) true) /\
      wait_if_needed now self =
        (ReturnedAt (now + (60 - (now - oldest))),
         mkRateLimiter (requests_per_minute self)
                       (purge now (request_times self) ++ [now]) false).
Proof.
  intros now self Hfree Hpos Hfull.
  destruct (py_min_spec (purge now (request_times self)))
    as (oldest & E & HIn & Hle).
  { intros Hnil. rewrite Hnil in Hfull. cbn in Hfull. lia. }
  exists oldest.
  assert (Hwait : 0 < 60 - (now - oldest)).
  { apply purge_In in HIn. lia. }
  repeat split; auto.
  - unfold step. rewrite Hfree. unfold enter.
    cbn -[purge py_min Z.geb Z.gtb Z.sub Z.add]. rewrite E.
    destruct (Z.geb_spec (len (purge now (request_times self)))
                         (requests_per_minute self)); [| lia].
    destruct (Z.gtb_spec (60 - (now - oldest)) 0); [reflexivity | lia].
  - rewrite wait_if_needed_unlocked by assumption. cbv zeta. rewrite E.
    destruct (Z.geb_spec (len (purge now (request_times self)))
                         (requests_per_minute self)); [| lia].
    destruct (Z.gtb_spec (60 - (now - oldest)) 0); [reflexivity | lia].
Qed.

(** With limit 2, a third call at t=0 after two calls at t=0 sleeps until
    t=60. *)
Lemma third_call_sleeps_a_minute :
  exists oldest,
    py_min (purge 0 [0; 0]) = Ok oldest /\
    In oldest (purge 0 [0; 0]) /\
    (forall s, In s (purge 0 [0; 0]) -> oldest <= s) /\
    0 < 60 - (0 - oldest) /\
    step 0 AtLock (mkRateLimiter 2 [0; 0] false) =
      (Parked 0 (0 + (60 - (0 - oldest))),
       mkRateLimiter 2 (purge 0 [0; 0]) true) /\
    wait_if_needed 0 (mkRateLimiter 2 [0; 0] false) =
      (ReturnedAt (0 + (60 - (0 - oldest))),
       mkRateLimiter 2 (purge 0 [0; 0] ++ [0]) false).
Proof.
  apply (full_window_sleeps_until_oldest_expires
           0 (mkRateLimiter 2 [0; 0] false)).
  - reflexivity.
  - simpl. lia.
  - vm_compute. discriminate.
Defined.

Lemma three_calls_limit_two :
  session 2 0 [0; 0; 0] =
    Ok ([ReturnedAt 0; ReturnedAt 0; ReturnedAt 60],
        (60, mkRateLimiter 2 [0; 0; 0] false)).
Proof. reflexivity. Qed.




End LimiterStatements.

(** ** dict *)

Section DictFacts.
Context {V : Type}.
Implicit Types (d : dict V) (k : string) (v : V).

Lemma getitem_None k d : getitem k d = None <-> ~ In k (keys d).
Proof.
  induction d as [|[k' v'] rest IH]; simpl.
  - tauto.
  - destruct (String.eqb_spec k k') as [-> | Hne].
    + split; [discriminate | intros H; exfalso; apply H; now left].
    + rewrite IH. split.
      * intros H [E | HIn]; [congruence | tauto].
      * tauto.
Qed.

Lemma getitem_In k v d : NoDup (keys d) -> In (k, v) d -> getitem k d = Some v.
Proof.
  induction d as [|[k' v'] rest IH]; simpl; intros Hnd HIn; [easy |].
  apply NoDup_cons_iff in Hnd as [Hnotin Hnd].
  destruct HIn as [E | HIn].
  - injection E as -> ->. now rewrite String.eqb_refl.
  - destruct (String.eqb_spec k k') as [-> | Hne]; [| auto].
    exfalso. apply Hnotin. unfold keys. now apply (in_map fst) in HIn.
Qed.

Lemma getitem_setitem k v d : getitem k (setitem k v d) = Some v.
Proof.
  induction d as [|[k' v'] rest IH]; simpl.
  - now rewrite String.eqb_refl.
  - destruct (String.eqb_spec k k') as [<- | Hne]; simpl.
    + now rewrite String.eqb_refl.
    + destruct (String.eqb_spec k k'); [contradiction | exact IH].
Qed.

Lemma getitem_setitem_other k k' v d :
  k' <> k -> getitem k' (setitem k v d) = getitem k' d.
Proof.
  intros Hne. induction d as [|[k0 v0] rest IH]; simpl.
  - destruct (String.eqb_spec k' k); [contradiction | reflexivity].
  - destruct (String.eqb_spec k k0) as [<- | Hne0]; simpl.
    + destruct (String.eqb_spec k' k); [contradiction | reflexivity].
    + now rewrite IH.
Qed.

Lemma setitem_new k v d : getitem k d = None -> setitem k v d = d ++ [(k, v)].
Proof.
  induction d as [|[k' v'] rest IH]; simpl; [reflexivity |].
  destruct (String.eqb_spec k k'); [discriminate |].
  intros H. now rewrite IH.
Qed.

Lemma setitem_present k v d :
  getitem k d <> None -> len (setitem k v d) = len d.
Proof.
  unfold len. intros H. f_equal. revert H.
  induction d as [|[k' v'] rest IH]; simpl; [congruence |].
  destruct (String.eqb_spec k k'); simpl; [reflexivity |].
  intros H. now rewrite IH.
Qed.

Lemma len_setitem_le k v d : len (setitem k v d) <= len d + 1.
Proof.
  destruct (getitem k d) eqn:E.
  - rewrite setitem_present; [lia | congruence].
  - rewrite setitem_new, len_app by assumption. cbn. lia.
Qed.

Lemma delitem_split k v (before after : dict V) :
  ~ In k (keys before) ->
  delitem k (before ++ (k, v) :: after) = before ++ after.
Proof.
  induction before as [|[k' v'] rest IH]; simpl; intros Hnotin.
  - now rewrite String.eqb_refl.
  - destruct (String.eqb_spec k k') as [-> | Hne]; [tauto |].
    rewrite IH; tauto.
Qed.

Lemma length_delitem k d :
  In k (keys d) -> S (List.length (delitem k d)) = List.length d.
Proof.
  induction d as [|[k' v'] rest IH]; simpl; [easy |].
  destruct (String.eqb_spec k k') as [-> | Hne]; [reflexivity |].
  intros [E | HIn]; [congruence |]. simpl. now rewrite IH.
Qed.

Lemma len_delitem k d : In k (keys d) -> len (delitem k d) = len d - 1.
Proof.
  intros HIn. apply length_delitem in HIn. unfold len. lia.
Qed.

Lemma getitem_delitem_other k k' d :
  k' <> k -> getitem k' (delitem k d) = getitem k' d.
Proof.
  intros Hne. induction d as [|[k0 v0] rest IH]; simpl; [reflexivity |].
  destruct (String.eqb_spec k k0) as [<- | Hne0]; simpl.
  - destruct (String.eqb_spec k' k); [contradiction | reflexivity].
  - now rewrite IH.
Qed.

(** A list of entries whose keys split as given splits the same way. *)
Lemma keys_split d (bk ak : list string) k :
  keys d = bk ++ k :: ak ->
  exists before v after,
    d = before ++ (k, v) :: after /\ keys before = bk /\ keys after = ak.
Proof.
  unfold keys. intros E.
  apply map_eq_app in E as (before & rest & -> & Hb & Hrest).
  apply map_eq_cons in Hrest as ([k' v] & after & -> & Hk & Ha).
  simpl in Hk. subst k'. now exists before, v, after.
Qed.

End DictFacts.

(** ** AIAssistant: the completion cache *)

Section Cache.
Context {S : Type}.
Variable generate_completion : AIRequest -> S -> AIResponse * S.
Implicit Types (self : AIAssistant S) (key : string) (response : AIResponse).

(** The oldest key is one of the keys. *)
Lemma oldest_key_In (d : dict AIResponse) (k : string) :
  py_min_by (age_key d) (keys d) = Ok k -> In k (keys d).
Proof.
  destruct (keys d) as [|k0 ks]; simpl; [discriminate |].
  intros E. injection E as <-. apply min_from_In.
Qed.

Lemma add_to_cache_below_capacity key response self :
  len (completion_cache self) < cache_max_size self ->
  _add_to_cache key response self =
    (Ok tt, set_completion_cache
              (setitem key response (completion_cache self)) self).
Proof.
  intros Hlt. unfold _add_to_cache.
  destruct (Z.geb_spec (len (completion_cache self)) (cache_max_size self));
    [lia | reflexivity].
Qed.

(** From a cache within its bound, an insertion is carried out and the
    cache stays within its bound. *)
Lemma add_to_cache_bounded (m : Z) key response self :
  0 < m -> bounded m self ->
  exists self',
    _add_to_cache key response self = (Ok tt, self') /\
    bounded m self' /\
    gemini_service self' = gemini_service self /\
    getitem key (completion_cache self') = Some response.
Proof.
  intros Hpos [Hmax Hlen]. unfold _add_to_cache.
  destruct (Z.geb_spec (len (completion_cache self)) (cache_max_size self))
    as [Hfull | Hroom].
  - destruct (completion_cache self) as [|[k0 v0] rest] eqn:Ed.
    { cbn in Hfull. lia. }
    rewrite <- Ed in *.
    destruct (py_min_by (age_key (completion_cache self))
                        (keys (completion_cache self))) as [oldest | e] eqn:E.
    + eexists. split; [reflexivity |]. unfold bounded.
      cbn [completion_cache cache_max_size gemini_service
           set_completion_cache].
      repeat split; auto using getitem_setitem.
      pose proof (len_setitem_le key response
                    (delitem oldest (completion_cache self))).
      rewrite len_delitem in H by (now apply oldest_key_In). lia.
    + rewrite Ed in E. discriminate E.
  - eexists. split; [reflexivity |]. unfold bounded.
    cbn [completion_cache cache_max_size gemini_service
         set_completion_cache].
    repeat split; auto using getitem_setitem.
    pose proof (len_setitem_le key response (completion_cache self)). lia.
Qed.

Lemma get_code_completion_bounded (m : Z) code context cache_key now self :
  0 < m -> bounded m self ->
  bounded m (snd (get_code_completion generate_completion
                    code context cache_key now self)).
Proof.
  intros Hpos Hb. unfold get_code_completion.
  destruct (cached_response cache_key now (completion_cache self));
    [exact Hb |].
  destruct (generate_completion _ (gemini_service self)) as [response service].
  assert (Hb' : bounded m (set_gemini_service service self)) by exact Hb.
  destruct cache_key as [k |]; [| exact Hb'].
  destruct (truthy (Some k) && negb (finish_reason response =? "error")%string);
    [| exact Hb'].
  destruct (add_to_cache_bounded m k response _ Hpos Hb')
    as (self' & -> & Hb'' & _). exact Hb''.
Qed.

Lemma apply_op_bounded (m : Z) (o : op) self :
  0 < m -> bounded m self -> bounded m (apply_op generate_completion o self).
Proof.
  intros Hpos Hb. destruct o as [code context cache_key now | key response |].
  - now apply get_code_completion_bounded.
  - simpl. destruct (add_to_cache_bounded m key response self Hpos Hb)
      as (self' & -> & Hb' & _). exact Hb'.
  - destruct Hb as [Hmax _]. split; [exact Hmax |]. cbn. lia.
Qed.

Lemma apply_ops_bounded (m : Z) (os : list op) :
  0 < m -> forall self, bounded m self ->
  bounded m (apply_ops generate_completion os self).
Proof.
  intros Hpos. unfold apply_ops.
  induction os as [|o rest IH]; intros self Hb; [exact Hb |].
  simpl. apply IH. now apply apply_op_bounded.
Qed.

(** C8.  After every sequence of completions, direct insertions and
    clears on a new assistant, the cache holds at most [cache_max_size]
    (100) entries; and an insertion is never refused: it returns, the key
    then maps to the inserted response, and the bound still holds. *)
Theorem cache_never_exceeds_max_size :
  forall (service : S) (os : list op),
    let self := apply_ops generate_completion os (__init__ service) in
    cache_max_size self = 100 /\
    cache_size self <= cache_max_size self /\
    forall key response,
    exists self',
      _add_to_cache key response self = (Ok tt, self') /\
      getitem key (completion_cache self') = Some response /\
      cache_size self' <= cache_max_size self'.
Proof.
  intros service os self.
  assert (Hb : bounded 100 self).
  { apply apply_ops_bounded; [lia |]. split; [reflexivity | cbn; lia]. }
  destruct Hb as [Hmax Hlen]. unfold cache_size.
  split; [exact Hmax |]. split; [lia |].
  intros key response.
  destruct (add_to_cache_bounded 100 key response self)
    as (self' & E & [Hmax' Hlen'] & _ & Hget); [lia | now split |].
  exists self'. repeat split; auto. lia.
Qed.

End Cache.

Section CacheStatements.
Context {S : Type}.
Variable generate_completion : AIRequest -> S -> AIResponse * S.
Implicit Types (self : AIAssistant S) (key : string) (response : AIResponse).

(** C4.  Inserting a new key into a cache that is full (its size has
    reached [cache_max_size], so that one more entry would exceed it)
    removes exactly one entry and then appends the new one.  The entry
    removed has the smallest [created_at]; among equals it is the one
    inserted first: entries before it are strictly younger, entries after
    it are not older.  All other entries stay, in their order. *)
Theorem full_cache_evicts_oldest_entry :
  forall self key response,
    NoDup (keys (completion_cache self)) ->
    0 < cache_max_size self ->
    getitem key (completion_cache self) = None ->
    cache_max_size self <= len (completion_cache self) ->
    exists before oldest_key oldest after,
      completion_cache self = before ++ (oldest_key, oldest) :: after /\
      (forall k r, In (k, r) before -> created_at oldest < created_at r) /\
      (forall k r, In (k, r) after -> created_at oldest <= created_at r) /\
      _add_to_cache key response self =
        (Ok tt,
         set_completion_cache (before ++ after ++ [(key, response)]) self).
Proof.
  intros self key response Hnd Hpos Hnew Hfull.
  remember (completion_cache self) as d eqn:Ed.
  destruct (keys d) as [|k0 ks] eqn:Ek.
  { destruct d; [cbn in Hfull; lia | discriminate Ek]. }
  destruct (min_from_first (age_key d) ks k0)
    as (bk & ak & Esplit & Hbefore & Hafter).
  remember (min_from (age_key d) k0 ks) as oldest_key eqn:Eold.
  rewrite <- Ek in Esplit, Hnd.
  destruct (keys_split d bk ak oldest_key Esplit)
    as (before & oldest & after & Hd & Hkb & Hka).
  assert (Hage : forall k r, In (k, r) d -> age_key d k = created_at r).
  { intros k r HIn. unfold age_key. now rewrite (getitem_In k r d Hnd HIn). }
  assert (Hold : age_key d oldest_key = created_at oldest).
  { apply Hage. rewrite Hd. apply in_or_app. right. now left. }
  exists before, oldest_key, oldest, after.
  split; [exact Hd |]. split; [| split].
  - intros k r HIn. rewrite <- Hold, <- (Hage k r).
    + apply Hbefore. rewrite <- Hkb. unfold keys.
      now apply (in_map fst) in HIn.
    + rewrite Hd. apply in_or_app. now left.
  - intros k r HIn. rewrite <- Hold, <- (Hage k r).
    + apply Hafter. rewrite <- Hka. unfold keys.
      now apply (in_map fst) in HIn.
    + rewrite Hd. apply in_or_app. right. now right.
  - unfold _add_to_cache. rewrite <- Ed.
    destruct (Z.geb_spec (len d) (cache_max_size self)); [| lia].
    rewrite Ek. cbn [py_min_by]. rewrite <- Eold.
    cbn [set_completion_cache completion_cache cache_max_size gemini_service].
    assert (Hnotin : ~ In oldest_key (keys before)).
    { rewrite Hd in Hnd. unfold keys in Hnd. rewrite map_app in Hnd.
      cbn [map fst] in Hnd. apply NoDup_remove_2 in Hnd.
      intros HIn. apply Hnd. apply in_or_app. now left. }
    assert (Hdel : delitem oldest_key d = before ++ after).
    { rewrite Hd. now apply delitem_split. }
    rewrite Hdel, setitem_new, <- app_assoc; [reflexivity |].
    apply getitem_None. apply getitem_None in Hnew.
    intros HIn. apply Hnew. rewrite Hd. unfold keys in *.
    rewrite map_app in *. cbn [map]. apply in_app_or in HIn.
    apply in_or_app. destruct HIn; [now left | right; now right].
Qed.

Lemma cached_response_Some key now (d : dict AIResponse) (r : AIResponse) :
  getitem "" d = None ->
  cached_response (Some key) now d = Some r <->
  getitem key d = Some r /\ now - created_at r < 300.
Proof.
  intros Hne. unfold cached_response, contains, truthy.
  destruct (String.eqb_spec key "") as [-> | Hkey].
  - rewrite Hne. cbn. split; [discriminate | intros [H _]; discriminate H].
  - cbn [negb andb]. destruct (getitem key d) as [cached |].
    + destruct (Z.ltb_spec (now - created_at cached) 300).
      * split; [intros E; injection E as <-; auto |].
        intros [E _]. exact E.
      * split; [discriminate |]. intros [E Hlt]. injection E as <-. lia.
    + split; [discriminate | intros [H _]; discriminate H].
Qed.

(** C5.  On a cache built through the public methods (no entry under the
    empty key), the lookup that opens [get_code_completion] finds a
    response exactly when the key is present and [now - created_at < 300];
    the call then returns that response and changes nothing.  On a stale
    entry the lookup finds nothing and leaves the entry where it is: the
    cache the call goes on with is the one it started from, so it is
    unchanged when the service answers with an error and otherwise changed
    only by the insertion of the new response. *)
Theorem lookup_finds_exactly_fresh_entries :
  forall self code context key now,
    getitem "" (completion_cache self) = None ->
    (forall r,
       cached_response (Some key) now (completion_cache self) = Some r <->
       getitem key (completion_cache self) = Some r /\
       now - created_at r < 300) /\
    (forall r,
       cached_response (Some key) now (completion_cache self) = Some r ->
       get_code_completion generate_completion code context (Some key) now self
       = (Ok r, self)) /\
    (forall r,
       getitem key (completion_cache self) = Some r ->
       300 <= now - created_at r ->
       let answer :=
         generate_completion (completion_request code context)
                             (gemini_service self) in
       let after :=
         snd (get_code_completion generate_completion
                code context (Some key) now self) in
       cached_response (Some key) now (completion_cache self) = None /\
       (finish_reason (fst answer) = "error" ->
        completion_cache after = completion_cache self) /\
       (finish_reason (fst answer) <> "error" ->
        after = snd (_add_to_cache key (fst answer)
                       (set_gemini_service (snd answer) self)))).
Proof.
  intros self code context key now Hne. split; [| split].
  - intros r. now apply cached_response_Some.
  - intros r E. unfold get_code_completion. now rewrite E.
  - intros r Hget Hstale answer after.
    assert (Hmiss : cached_response (Some key) now (completion_cache self)
                    = None).
    { destruct (cached_response (Some key) now (completion_cache self))
        as [r' |] eqn:E; [| reflexivity].
      apply cached_response_Some in E as [E Hlt]; [| exact Hne].
      rewrite Hget in E. injection E as <-. lia. }
    assert (Hkey : truthy (Some key) = true).
    { unfold truthy. destruct (String.eqb_spec key "") as [-> | _];
        [congruence | reflexivity]. }
    split; [exact Hmiss |].
    subst after answer. unfold get_code_completion. rewrite Hmiss, Hkey.
    fold (completion_request code context).
    destruct (generate_completion (completion_request code context)
                                  (gemini_service self))
      as [response service].
    cbn [fst snd andb].
    destruct (String.eqb_spec (finish_reason response) "error") as [Herr | Hok];
      cbn [negb].
    + split; [reflexivity | congruence].
    + split; [congruence |]. intros _.
      now destruct (_add_to_cache key response
                      (set_gemini_service service self)) as [[[] | e] self'].
Qed.

(** C10.  With [cache_key = None] the call returns what the service
    answers to the request built from [code] and [context], whatever the
    cache holds, and the cache afterwards is the cache before; only the
    state of the service moves on.  This does not depend on whether the
    answer is an error. *)
Theorem no_cache_key_leaves_cache_alone :
  forall self code context now,
    let answer :=
      generate_completion (completion_request code context)
                          (gemini_service self) in
    get_code_completion generate_completion code context None now self
    = (Ok (fst answer), set_gemini_service (snd answer) self) /\
    completion_cache
      (snd (get_code_completion generate_completion code context None now self))
    = completion_cache self /\
    forall d : dict AIResponse,
      fst (get_code_completion generate_completion code context None now
             (set_completion_cache d self))
      = Ok (fst answer).
Proof.
  intros self code context now answer. subst answer.
  unfold get_code_completion. cbn [cached_response].
  fold (completion_request code context).
  cbn [gemini_service set_completion_cache].
  destruct (generate_completion (completion_request code context)
                                (gemini_service self))
    as [response service].
  repeat split.
Qed.

(** The public methods never store a response under the empty key. *)
Lemma add_to_cache_keeps_keys_nonempty key response self :
  key <> "" ->
  getitem "" (completion_cache self) = None ->
  getitem "" (completion_cache (snd (_add_to_cache key response self))) = None.
Proof.
  intros Hkey Hne. unfold _add_to_cache.
  destruct (len (completion_cache self) >=? cache_max_size self);
    [| cbn; rewrite getitem_setitem_other; auto].
  destruct (py_min_by _ (keys (completion_cache self))) as [oldest | e] eqn:E;
    [| exact Hne].
  cbn. rewrite getitem_setitem_other by auto.
  rewrite getitem_delitem_other; [exact Hne |].
  intros <-. apply oldest_key_In in E. now apply getitem_None in Hne.
Qed.

Lemma public_calls_keep_keys_nonempty (os : list op) :
  forallb public os = true ->
  forall self,
    getitem "" (completion_cache self) = None ->
    getitem "" (completion_cache (apply_ops generate_completion os self))
    = None.
Proof.
  unfold apply_ops.
  induction os as [|o rest IH]; intros Hpub self Hne; [exact Hne |].
  simpl in Hpub. apply andb_prop in Hpub as [Ho Hrest].
  simpl. apply IH; [exact Hrest |].
  destruct o as [code context cache_key now | key response |];
    [| discriminate Ho | reflexivity].
  simpl. unfold get_code_completion.
  destruct (cached_response cache_key now (completion_cache self));
    [exact Hne |].
  destruct (generate_completion _ (gemini_service self)) as [response service].
  destruct cache_key as [k |]; [| exact Hne].
  unfold truthy. destruct (String.eqb_spec k "") as [-> | Hk];
    [exact Hne |].
  cbn [negb andb].
  destruct (negb (finish_reason response =? "error")%string); [| exact Hne].
  pose proof (add_to_cache_keeps_keys_nonempty k response
                (set_gemini_service service self) Hk Hne) as H.
  now destruct (_add_to_cache k response (set_gemini_service service self))
    as [[[] | e] self'].
Qed.

End CacheStatements.

(** ** The cache on concrete runs *)

(** C4 at the cache of two entries ["a"] (t=0) and ["b"] (t=1) with room
    for two: inserting ["c"] removes ["a"]. *)
Lemma third_key_evicts_first :
  let self := mkAIAssistant 0 [("a", response_at "X" 0);
                               ("b", response_at "Y" 1)] 2 in
  NoDup (keys (completion_cache self)) /\
  0 < cache_max_size self /\
  getitem "c" (completion_cache self) = None /\
  cache_max_size self <= len (completion_cache self) /\
  exists before oldest_key oldest after,
    completion_cache self = before ++ (oldest_key, oldest) :: after /\
    (forall k r, In (k, r) before -> created_at oldest < created_at r) /\
    (forall k r, In (k, r) after -> created_at oldest <= created_at r) /\
    _add_to_cache "c" (response_at "Z" 2) self =
      (Ok tt,
       set_completion_cache
         (before ++ after ++ [("c", response_at "Z" 2)]) self).
Proof.
  intros self.
  assert (Hnd : NoDup (keys (completion_cache self))).
  { repeat constructor; simpl; intuition discriminate. }
  assert (Hpos : 0 < cache_max_size self) by (simpl; lia).
  assert (Hnew : getitem "c" (completion_cache self) = None) by reflexivity.
  assert (Hfull : cache_max_size self <= len (completion_cache self))
    by (vm_compute; discriminate).
  repeat (split; [assumption |]).
  exact (full_cache_evicts_oldest_entry
           self "c" (response_at "Z" 2) Hnd Hpos Hnew Hfull).
Defined.

(** With room for two entries: put ["a"] at t=0, ["b"] at t=1, ["c"] at
    t=2; then ["a"] is gone while ["b"] and ["c"] are found. *)
Lemma three_puts_two_slots :
  let self :=
    apply_ops echo_service
      [Put "a" (response_at "X" 0); Put "b" (response_at "Y" 1);
       Put "c" (response_at "Z" 2)]
      (mkAIAssistant 0 [] 2) in
  keys (completion_cache self) = ["b"; "c"] /\
  cached_response (Some "a") 2 (completion_cache self) = None /\
  cached_response (Some "b") 2 (completion_cache self)
    = Some (response_at "Y" 1) /\
  cached_response (Some "c") 2 (completion_cache self)
    = Some (response_at "Z" 2).
Proof. vm_compute. repeat split. Qed.

(** Equal ages: the entry inserted first goes. *)
Lemma equal_ages_first_inserted_goes :
  keys (completion_cache
          (apply_ops echo_service
             [Put "a" (response_at "X" 5); Put "b" (response_at "Y" 5);
              Put "c" (response_at "Z" 5)]
             (mkAIAssistant 0 [] 2)))
  = ["b"; "c"].
Proof. vm_compute. reflexivity. Qed.

(** C5 at a single entry created at t=0: found at t=299, not found at
    t=300 or later. *)
Lemma entry_found_until_300_seconds :
  let self := mkAIAssistant 0 [("a", response_at "X" 0)] 100 in
  getitem "" (completion_cache self) = None /\
  cached_response (Some "a") 299 (completion_cache self)
    = Some (response_at "X" 0) /\
  cached_response (Some "a") 300 (completion_cache self) = None /\
  cached_response (Some "a") 301 (completion_cache self) = None.
Proof.
  intros self.
  assert (Hne : getitem "" (completion_cache self) = None) by reflexivity.
  split; [exact Hne |]. split; [| split].
  - apply (proj1 (lookup_finds_exactly_fresh_entries
                    echo_service self "code" "" "a" 299 Hne)).
    split; [reflexivity | simpl; lia].
  - apply (proj2 (proj2 (lookup_finds_exactly_fresh_entries
                           echo_service self "code" "" "a" 300 Hne))
             (response_at "X" 0)); [reflexivity | simpl; lia].
  - apply (proj2 (proj2 (lookup_finds_exactly_fresh_entries
                           echo_service self "code" "" "a" 301 Hne))
             (response_at "X" 0)); [reflexivity | simpl; lia].
Defined.

(** C3 (fails on the code).  The claim: overwriting a key that is already
    cached never evicts and leaves the size unchanged.  A new assistant
    serves completions for 100 different cache keys, which fills the
    cache.  The key cached last is asked for again once its entry is
    stale, so the new response overwrites it: [_add_to_cache] sees a full
    cache and first removes the oldest entry, which belongs to another
    key.  The cache goes from 100 entries to 99. *)
Theorem overwrite_in_full_cache_evicts_another_key :
  let before := apply_ops echo_service (fill 100) (__init__ 0) in
  let after :=
    apply_op echo_service
      (Complete "code" "" (Some (key_of 99)) 1000) before in
  cache_size before = 100 /\
  contains (key_of 99) (completion_cache before) = true /\
  contains (key_of 0) (completion_cache before) = true /\
  cache_size after = 99 /\
  contains (key_of 99) (completion_cache after) = true /\
  contains (key_of 0) (completion_cache after) = false.
Proof. vm_compute. repeat split. Qed.

(** The same on a cache of two slots, by direct insertion. *)
Lemma overwrite_evicts_in_two_slots :
  _add_to_cache "b" (response_at "Y" 2)
    (mkAIAssistant 0 [("a", response_at "X" 0); ("b", response_at "Z" 1)] 2)
  = (Ok tt, mkAIAssistant 0 [("b", response_at "Y" 2)] 2).
Proof. reflexivity. Qed.

(** With a single slot the entry removed is the one overwritten, so one
    entry is left, holding the new response. *)
Lemma overwrite_single_slot :
  completion_cache
    (apply_ops echo_service
       [Put "a" (response_at "X" 0); Put "a" (response_at "Y" 1)]
       (mkAIAssistant 0 [] 1))
  = [("a", response_at "Y" 1)].
Proof. reflexivity. Qed.

(** Below capacity an overwrite does keep the size and every other key. *)
Lemma overwrite_below_capacity {S : Type} (self : AIAssistant S)
  (key : string) (response : AIResponse) :
  len (completion_cache self) < cache_max_size self ->
  getitem key (completion_cache self) <> None ->
  exists self',
    _add_to_cache key response self = (Ok tt, self') /\
    cache_size self' = cache_size self /\
    getitem key (completion_cache self') = Some response /\
    forall k, k <> key ->
      getitem k (completion_cache self') = getitem k (completion_cache self).
Proof.
  intros Hroom Hpresent. eexists.
  split; [now apply add_to_cache_below_capacity |].
  unfold cache_size. cbn [completion_cache set_completion_cache].
  split; [now apply setitem_present |].
  split; [apply getitem_setitem |].
  intros k Hk. now apply getitem_setitem_other.
Qed.

(** * Further properties of the module *)

(** ** RateLimiter: what callers can rely on *)

Section LimiterGuarantees.
Import RateLimiter.

Lemma wait_returns_within_a_minute (clock now : Z) (self : RateLimiter) :
  settled clock self -> clock <= now -> 0 < requests_per_minute self ->
  exists t,
    wait_if_needed now self =
      (ReturnedAt t,
       mkRateLimiter (requests_per_minute self)
                     (purge now (request_times self) ++ [now]) false) /\
    now <= t <= now + 60.
Proof.
  intros [Hfree Hold] Hnow Hpos.
  rewrite wait_if_needed_unlocked by assumption. cbv zeta.
  destruct (Z.geb_spec (len (purge now (request_times self)))
                       (requests_per_minute self)) as [Hfull | Hroom].
  - destruct (py_min_spec (purge now (request_times self)))
      as (oldest & -> & HIn & _).
    { intros E. rewrite E in Hfull. cbn in Hfull. lia. }
    apply purge_In in HIn as [HIn Hyoung].
    rewrite Forall_forall in Hold. specialize (Hold oldest HIn).
    destruct (Z.gtb_spec (60 - (now - oldest)) 0).
    + eexists. split; [reflexivity | lia].
    + eexists. split; [reflexivity | lia].
  - eexists. split; [reflexivity | lia].
Qed.

(** X1.  With a positive limit and the lock free a call always returns:
    it neither raises nor stays blocked, whatever times are recorded and
    however late its sleep ends.  It returns no earlier than it entered;
    when no recorded time is after the time it entered, it returns no
    later than 60 seconds after that, plus the lateness of the wake-up.
    It records the time it entered and leaves the lock free. *)
Theorem positive_limit_call_always_returns :
  forall (late : N) (now : Z) (self : RateLimiter),
    lock self = false -> 0 < requests_per_minute self ->
    exists t,
      wait_if_needed_late late now self =
        (ReturnedAt t,
         mkRateLimiter (requests_per_minute self)
                       (purge now (request_times self) ++ [now]) false) /\
      now <= t /\
      (Forall (fun s => s <= now) (request_times self) ->
       t <= now + 60 + Z.of_N late).
Proof.
  intros late now self Hfree Hpos.
  rewrite wait_if_needed_late_unlocked by assumption. cbv zeta.
  destruct (Z.geb_spec (len (purge now (request_times self)))
                       (requests_per_minute self)) as [Hfull | Hroom].
  - destruct (py_min_spec (purge now (request_times self)))
      as (oldest & -> & HIn & _).
    { intros E. rewrite E in Hfull. cbn in Hfull. lia. }
    apply purge_In in HIn as [HIn Hyoung].
    destruct (Z.gtb_spec (60 - (now - oldest)) 0); [| lia].
    eexists. split; [reflexivity |]. split; [lia |].
    intros Hpast. rewrite Forall_forall in Hpast.
    specialize (Hpast oldest HIn). lia.
  - eexists. split; [reflexivity |]. split; lia.
Qed.

Lemma full_window_woken_a_second_late :
  exists t,
    wait_if_needed_late 1 0 (mkRateLimiter 1 [0] false) =
      (ReturnedAt t, mkRateLimiter 1 (purge 0 [0] ++ [0]) false) /\
    0 <= t /\
    (Forall (fun s => s <= 0) [0] -> t <= 0 + 60 + Z.of_N 1).
Proof.
  apply (positive_limit_call_always_returns 1 0 (mkRateLimiter 1 [0] false)).
  - reflexivity.
  - simpl. lia.
Defined.

(** A recorded time after the time of entry makes the sleep longer than a
    minute. *)
Lemma future_time_lengthens_the_sleep :
  wait_if_needed 0 (mkRateLimiter 1 [100] false)
  = (ReturnedAt 160, mkRateLimiter 1 [100; 0] false).
Proof. reflexivity. Qed.

Lemma len_purge_le (now : Z) (times : list Z) : len (purge now times) <= len times.
Proof.
  unfold len, purge. pose proof (filter_length_le
    (fun req_time => now - req_time <? 60) times). lia.
Qed.

Lemma len_cons {A : Type} (x : A) (l : list A) : len (x :: l) = 1 + len l.
Proof. unfold len. cbn [List.length]. lia. Qed.

Lemma run_below_limit (arrivals : list Z) :
  forall clock self,
    lock self = false ->
    len (request_times self) + len arrivals <= requests_per_minute self ->
    fst (run arrivals clock self)
    = map ReturnedAt (entry_times clock arrivals).
Proof.
  induction arrivals as [|a rest IH]; intros clock self Hfree Hroom;
    [reflexivity |].
  simpl. pose proof (len_purge_le (Z.max a clock) (request_times self)).
  pose proof (len_nonneg rest).
  pose proof (len_cons a rest) as Hrest.
  rewrite free_window_returns_at_once by (assumption || lia).
  specialize (IH (Z.max a clock)
                 (mkRateLimiter (requests_per_minute self)
                    (purge (Z.max a clock) (request_times self)
                     ++ [Z.max a clock]) false)).
  cbn [finished_at]. 
  destruct (run rest (Z.max a clock) _) as [os final] eqn:E.
  cbn [fst] in *. f_equal. apply IH; [reflexivity |].
  cbn [request_times requests_per_minute]. rewrite len_app, len_cons.
  unfold len in *. cbn [List.length] in *. lia.
Qed.

(** X2.  The first [requests_per_minute] callers of a new limiter are never
    made to wait, however close together they arrive: each returns the
    moment it enters. *)
Theorem first_calls_up_to_limit_return_at_once :
  forall (requests_per_minute t0 : Z) (arrivals : list Z),
    len arrivals <= requests_per_minute ->
    exists final,
      session requests_per_minute t0 arrivals =
        Ok (map ReturnedAt (entry_times t0 arrivals), final).
Proof.
  intros limit t0 arrivals Hle. unfold session, __init__.
  pose proof (run_below_limit arrivals t0 (mkRateLimiter limit [] false)
                eq_refl) as H.
  destruct (run arrivals t0 (mkRateLimiter limit [] false)) as [os final].
  exists final. cbn [fst] in H. rewrite H; [reflexivity |]. cbn. lia.
Qed.

Lemma three_callers_limit_three :
  exists final,
    session 3 0 [0; 0; 2] = Ok (map ReturnedAt (entry_times 0 [0; 0; 2]), final).
Proof.
  apply (first_calls_up_to_limit_return_at_once 3 0 [0; 0; 2]).
  vm_compute. discriminate.
Defined.

Lemma run_nonpositive_limit (arrivals : list Z) :
  forall clock limit,
    limit <= 0 ->
    run arrivals clock (mkRateLimiter limit [] false)
    = (map (RaisedAt ValueError) (entry_times clock arrivals),
       (fold_left (fun c a => Z.max a c) arrivals clock,
        mkRateLimiter limit [] false)).
Proof.
  induction arrivals as [|a rest IH]; intros clock limit Hle; [reflexivity |].
  simpl. rewrite wait_if_needed_unlocked by reflexivity.
  cbn -[Z.max Z.geb].
  destruct (Z.geb_spec 0 limit); [| lia].
  cbn [finished_at]. now rewrite IH.
Qed.

(** X3.  A limiter constructed with a limit of 0 or less serves nobody: every
    call raises [ValueError] the moment it enters, and nothing is ever
    recorded. *)
Theorem nonpositive_limit_raises_on_every_call :
  forall (requests_per_minute t0 : Z) (arrivals : list Z),
    requests_per_minute <= 0 ->
    exists clock,
      session requests_per_minute t0 arrivals =
        Ok (map (RaisedAt ValueError) (entry_times t0 arrivals),
            (clock, mkRateLimiter requests_per_minute [] false)).
Proof.
  intros limit t0 arrivals Hle. unfold session, __init__.
  rewrite run_nonpositive_limit by assumption. eexists. reflexivity.
Qed.

Lemma limit_zero_raises_twice :
  exists clock,
    session 0 0 [1; 2] =
      Ok (map (RaisedAt ValueError) (entry_times 0 [1; 2]),
          (clock, mkRateLimiter 0 [] false)).
Proof.
  apply (nonpositive_limit_raises_on_every_call 0 0 [1; 2]). lia.
Defined.

Lemma run_in_order (arrivals : list Z) :
  forall clock self,
    settled clock self -> 0 < requests_per_minute self ->
    Forall2 returned_from arrivals (fst (run arrivals clock self)) /\
    Forall (fun t => clock <= t) (return_times (fst (run arrivals clock self))) /\
    StronglySorted Z.le (return_times (fst (run arrivals clock self))).
Proof.
  induction arrivals as [|a rest IH]; intros clock self Hs Hpos.
  - cbn. repeat split; constructor.
  - simpl.
    pose proof (wait_if_needed_settled clock (Z.max a clock) self Hs
                  (Z.le_max_r a clock)) as Hnext.
    destruct (wait_returns_within_a_minute clock (Z.max a clock) self Hs
                (Z.le_max_r a clock) Hpos) as (t & E & Ht).
    rewrite E in *. cbn [fst snd finished_at] in *.
    destruct (IH t _ Hnext Hpos) as (Hall & Hge & Hsorted).
    destruct (run rest t _) as [os final]. cbn [fst] in *.
    cbn [return_times]. repeat split.
    + constructor; [| exact Hall]. exists t. split; [reflexivity | lia].
    + constructor; [lia |]. eapply Forall_impl; [| exact Hge].
      cbv beta. intros. lia.
    + constructor; assumption.
Qed.

(** X4.  With a positive limit every caller of a new limiter is served, none
    before it arrived, and callers are released in the order in which they
    arrived: the times of return never decrease. *)
Theorem callers_return_in_arrival_order :
  forall (requests_per_minute t0 : Z) (arrivals : list Z),
    0 < requests_per_minute ->
    exists os final,
      session requests_per_minute t0 arrivals = Ok (os, final) /\
      Forall2 returned_from arrivals os /\
      StronglySorted Z.le (return_times os).
Proof.
  intros limit t0 arrivals Hpos. unfold session, __init__.
  destruct (run_in_order arrivals t0 (mkRateLimiter limit [] false))
    as (Hall & _ & Hsorted); [split; [reflexivity | constructor] | exact Hpos |].
  destruct (run arrivals t0 (mkRateLimiter limit [] false)) as [os final].
  exists os, final. auto.
Qed.

Lemma two_callers_limit_one_in_order :
  exists os final,
    session 1 0 [0; 5] = Ok (os, final) /\
    Forall2 returned_from [0; 5] os /\
    StronglySorted Z.le (return_times os).
Proof.
  apply (callers_return_in_arrival_order 1 0 [0; 5]). lia.
Defined.

Lemma purge_app (u : Z) (l1 l2 : list Z) :
  purge u (l1 ++ l2) = purge u l1 ++ purge u l2.
Proof. apply filter_app. Qed.

Lemma purge_purge (now u : Z) (l : list Z) :
  now <= u -> purge u (purge now l) = purge u l.
Proof.
  intros Hle. induction l as [|s rest IH]; [reflexivity |]. simpl.
  destruct (Z.ltb_spec (now - s) 60); simpl.
  - now rewrite IH.
  - destruct (Z.ltb_spec (u - s) 60); [lia | exact IH].
Qed.

Lemma in_window_app (t : Z) (l1 l2 : list Z) :
  in_window t (l1 ++ l2) = in_window t l1 + in_window t l2.
Proof. unfold in_window. now rewrite filter_app, len_app. Qed.

Lemma in_window_le_purge (now t : Z) (l : list Z) :
  now <= t -> in_window t l <= len (purge now l).
Proof.
  intros Hle. unfold in_window, purge, len.
  induction l as [|r rest IH]; [reflexivity |]. simpl.
  destruct (Z.ltb_spec (t - r) 60); destruct (Z.leb_spec r t);
    destruct (Z.ltb_spec (now - r) 60); cbn [andb List.length]; lia.
Qed.

Lemma in_window_single (t now : Z) :
  in_window t [now] = 0 \/ (in_window t [now] = 1 /\ now <= t).
Proof.
  unfold in_window. simpl.
  destruct (Z.ltb_spec (t - now) 60); destruct (Z.leb_spec now t);
    cbn; auto.
Qed.

Lemma wait_if_needed_paced (clock now : Z) (self : RateLimiter)
  (served : list Z) :
  paced clock self served -> clock <= now -> 0 < requests_per_minute self ->
  exists t self',
    wait_if_needed now self = (ReturnedAt t, self') /\
    requests_per_minute self' = requests_per_minute self /\
    paced t self' (if t =? now then served ++ [now] else served).
Proof.
  intros (Hs & Hcover & Hwin) Hnow Hpos.
  pose proof (wait_if_needed_settled clock now self Hs Hnow) as Hnext.
  destruct Hs as [Hfree Hold].
  rewrite wait_if_needed_unlocked in * by assumption. cbv zeta in *.
  assert (Hafter : forall u, now <= u ->
            len (purge u served)
            <= len (purge u (purge now (request_times self) ++ [now]))).
  { intros u Hu. rewrite purge_app, len_app, purge_purge by assumption.
    specialize (Hcover u ltac:(lia)). pose proof (len_nonneg (purge u [now])).
    lia. }
  destruct (Z.geb_spec (len (purge now (request_times self)))
                       (requests_per_minute self)) as [Hfull | Hroom].
  - destruct (py_min_spec (purge now (request_times self)))
      as (oldest & E & HIn & _).
    { intros E. rewrite E in Hfull. cbn in Hfull. lia. }
    rewrite E in *. apply purge_In in HIn as [_ Hyoung].
    destruct (Z.gtb_spec (60 - (now - oldest)) 0); [| lia].
    do 2 eexists. split; [reflexivity |]. split; [reflexivity |].
    destruct (Z.eqb_spec (now + (60 - (now - oldest))) now); [lia |].
    split; [exact Hnext |]. split; [| exact Hwin].
    intros u Hu. apply Hafter. lia.
  - do 2 eexists. split; [reflexivity |]. split; [reflexivity |].
    rewrite Z.eqb_refl. split; [exact Hnext |]. split.
    + intros u Hu. cbn [request_times].
      rewrite purge_app, len_app, purge_app, len_app, purge_purge
        by assumption.
      specialize (Hcover u ltac:(lia)). lia.
    + intros t. cbn [requests_per_minute]. rewrite in_window_app.
      destruct (in_window_single t now) as [-> | [-> Hle]].
      * specialize (Hwin t). lia.
      * pose proof (in_window_le_purge now t served Hle).
        specialize (Hcover now Hnow). lia.
Qed.

Lemma prompt_returns_paced (arrivals : list Z) :
  forall clock self served,
    paced clock self served -> 0 < requests_per_minute self ->
    forall t,
      in_window t (served ++ prompt_returns arrivals clock self)
      <= requests_per_minute self.
Proof.
  induction arrivals as [|a rest IH]; intros clock self served Hp Hpos t.
  - cbn. rewrite app_nil_r. now destruct Hp as (_ & _ & Hwin).
  - simpl.
    destruct (wait_if_needed_paced clock (Z.max a clock) self served Hp
                (Z.le_max_r a clock) Hpos) as (t' & self' & E & Hlimit & Hp').
    rewrite E. cbn [finished_at]. rewrite <- Hlimit in *.
    specialize (IH t' self' _ Hp' Hpos t).
    destruct (t' =? Z.max a clock); [| exact IH].
    now rewrite <- app_assoc in IH.
Qed.

(** X5.  What the limiter does guarantee.  With a positive limit, among the
    calls of a new limiter that return without sleeping, at most
    [requests_per_minute] return in any 60-second window.  (Calls that
    slept are what can exceed the limit.) *)
Theorem calls_served_at_once_respect_limit :
  forall (requests_per_minute t0 : Z) (arrivals : list Z),
    0 < requests_per_minute ->
    forall t,
      in_window t (prompt_returns arrivals t0
                     (mkRateLimiter requests_per_minute [] false))
      <= requests_per_minute.
Proof.
  intros limit t0 arrivals Hpos t.
  apply (prompt_returns_paced arrivals t0 (mkRateLimiter limit [] false) []);
    [| exact Hpos].
  split; [split; [reflexivity | constructor] |]. split.
  - intros u _. cbn. lia.
  - intros t'. cbn. lia.
Qed.

Lemma burst_of_five_limit_two :
  0 < 2 /\
  in_window 60 (prompt_returns [0; 0; 0; 0; 0] 0 (mkRateLimiter 2 [] false))
  <= 2.
Proof.
  split; [lia |].
  apply (calls_served_at_once_respect_limit 2 0 [0; 0; 0; 0; 0]). lia.
Defined.

End LimiterGuarantees.

(** ** dict: more facts *)

Section DictInvariants.
Context {V : Type}.
Implicit Types (d : dict V) (k : string) (v : V).

Lemma keys_setitem_present k v d :
  getitem k d <> None -> keys (setitem k v d) = keys d.
Proof.
  induction d as [|[k' v'] rest IH]; simpl; [congruence |].
  destruct (String.eqb_spec k k'); simpl; [reflexivity |].
  intros H. now rewrite IH.
Qed.

Lemma NoDup_keys_setitem k v d : NoDup (keys d) -> NoDup (keys (setitem k v d)).
Proof.
  intros Hnd. destruct (getitem k d) eqn:E.
  - rewrite keys_setitem_present; [exact Hnd | congruence].
  - rewrite setitem_new by assumption. unfold keys. rewrite map_app.
    apply NoDup_app; [exact Hnd | repeat constructor; intros [] |].
    intros a HIn [<- | []]. now apply getitem_None in E.
Qed.

Lemma In_keys_delitem k k' d : In k' (keys (delitem k d)) -> In k' (keys d).
Proof.
  induction d as [|[k0 v0] rest IH]; simpl; [easy |].
  destruct (String.eqb_spec k k0); simpl; [auto |].
  intros [E | HIn]; auto.
Qed.

Lemma NoDup_keys_delitem k d : NoDup (keys d) -> NoDup (keys (delitem k d)).
Proof.
  induction d as [|[k0 v0] rest IH]; simpl; intros Hnd; [constructor |].
  apply NoDup_cons_iff in Hnd as [Hnotin Hnd].
  destruct (String.eqb_spec k k0); simpl; [exact Hnd |].
  constructor; [| auto]. intros HIn. apply Hnotin.
  now apply In_keys_delitem in HIn.
Qed.

Lemma getitem_delitem k d : NoDup (keys d) -> getitem k (delitem k d) = None.
Proof.
  induction d as [|[k0 v0] rest IH]; simpl; intros Hnd; [reflexivity |].
  apply NoDup_cons_iff in Hnd as [Hnotin Hnd].
  destruct (String.eqb_spec k k0) as [-> | Hne]; simpl.
  - now apply getitem_None.
  - destruct (String.eqb_spec k k0); [contradiction | auto].
Qed.

Lemma Forall_setitem (P : string * V -> Prop) k v d :
  (forall k', P (k', v)) -> Forall P d -> Forall P (setitem k v d).
Proof.
  intros Hv. induction 1 as [|[k0 v0] rest H0 Hrest IH]; simpl.
  - constructor; [apply Hv | constructor].
  - destruct (String.eqb k k0); constructor; auto.
Qed.

Lemma Forall_delitem (P : string * V -> Prop) k d :
  Forall P d -> Forall P (delitem k d).
Proof.
  induction 1 as [|[k0 v0] rest H0 Hrest IH]; simpl; [constructor |].
  destruct (String.eqb k k0); [exact Hrest | constructor; auto].
Qed.

End DictInvariants.

(** ** AIAssistant: what users of the cache can rely on *)

Section CacheGuarantees.
Context {S : Type}.
Variable generate_completion : AIRequest -> S -> AIResponse * S.
Implicit Types (self : AIAssistant S) (key : string) (response : AIResponse).

Lemma add_to_cache_outcome key response self :
  (completion_cache self = [] /\ cache_max_size self <= 0 /\
   _add_to_cache key response self = (Raise ValueError, self)) \/
  (~ (completion_cache self = [] /\ cache_max_size self <= 0) /\
   exists d,
     _add_to_cache key response self
     = (Ok tt, set_completion_cache (setitem key response d) self) /\
     (d = completion_cache self \/
      exists oldest, d = delitem oldest (completion_cache self))).
Proof.
  unfold _add_to_cache.
  destruct (Z.geb_spec (len (completion_cache self)) (cache_max_size self))
    as [Hfull | Hroom].
  - destruct (completion_cache self) as [|[k0 v0] rest] eqn:Ed.
    + left. cbn in Hfull. split; [reflexivity |].
      split; [lia | reflexivity].
    + right. split; [intros [H _]; discriminate H |].
      cbn [keys map fst py_min_by].
      eexists. split; [reflexivity |]. right. eexists. reflexivity.
  - right. split.
    + intros [E Hle]. rewrite E in Hroom. cbn in Hroom. lia.
    + eexists. split; [reflexivity | now left].
Qed.

(** X6.  [_add_to_cache] fails in one situation only: the cache is empty and
    [cache_max_size] is 0 or less; it then raises [ValueError] and stores
    nothing.  In every other state it returns and the key maps to the
    response. *)
Theorem add_to_cache_raises_only_when_empty_and_sizeless :
  forall self key response,
    (fst (_add_to_cache key response self) = Raise ValueError <->
     completion_cache self = [] /\ cache_max_size self <= 0) /\
    (fst (_add_to_cache key response self) = Raise ValueError ->
     snd (_add_to_cache key response self) = self) /\
    (fst (_add_to_cache key response self) = Ok tt ->
     getitem key (completion_cache (snd (_add_to_cache key response self)))
     = Some response).
Proof.
  intros self key response.
  destruct (add_to_cache_outcome key response self)
    as [(Hd & Hm & E) | (Hnot & d & E & _)]; rewrite E; cbn [fst snd].
  - repeat split; auto. discriminate.
  - split; [split; [discriminate | tauto] |].
    split; [discriminate |]. intros _. apply getitem_setitem.
Qed.

(** X7.  An empty string as cache key switches caching off, exactly as [None]
    does. *)
Theorem empty_cache_key_is_no_cache_key :
  forall self code context now,
    get_code_completion generate_completion code context (Some "") now self
    = get_code_completion generate_completion code context None now self.
Proof.
  intros self code context now. unfold get_code_completion.
  cbn [cached_response truthy String.eqb negb andb].
  now destruct (generate_completion _ (gemini_service self)).
Qed.

Lemma cached_response_hit key now (d : dict AIResponse) (r : AIResponse) :
  key <> "" -> getitem key d = Some r -> now - created_at r < 300 ->
  cached_response (Some key) now d = Some r.
Proof.
  intros Hkey Hget Hfresh. unfold cached_response, contains, truthy.
  destruct (String.eqb_spec key ""); [contradiction |]. rewrite Hget.
  cbn [negb andb]. destruct (Z.ltb_spec (now - created_at r) 300);
    [reflexivity | lia].
Qed.

(** X8.  Store, then hit.  When a call with a non-empty key misses, the service
    answers without error and [cache_max_size] is positive, the answer is
    stored; any later call with that key made less than 300 seconds after
    the answer was created returns it without calling the service,
    whatever code and context it passes. *)
Theorem stored_answer_is_served_from_cache :
  forall self code context key now now',
    key <> "" ->
    0 < cache_max_size self ->
    cached_response (Some key) now (completion_cache self) = None ->
    let answer :=
      generate_completion (completion_request code context)
                          (gemini_service self) in
    finish_reason (fst answer) <> "error" ->
    now' - created_at (fst answer) < 300 ->
    exists self',
      get_code_completion generate_completion code context (Some key) now self
      = (Ok (fst answer), self') /\
      gemini_service self' = snd answer /\
      forall code' context',
        get_code_completion generate_completion code' context' (Some key)
                            now' self'
        = (Ok (fst answer), self').
Proof.
  intros self code context key now now' Hkey Hpos Hmiss answer Hok Hfresh.
  subst answer. unfold get_code_completion at 1. rewrite Hmiss.
  fold (completion_request code context).
  destruct (generate_completion (completion_request code context)
                                (gemini_service self))
    as [response service]. cbn [fst snd] in *.
  unfold truthy. destruct (String.eqb_spec key ""); [contradiction |].
  destruct (String.eqb_spec (finish_reason response) "error");
    [contradiction |]. cbn [negb andb].
  destruct (add_to_cache_outcome key response
              (set_gemini_service service self))
    as [(Hd & Hm & _) | (_ & d & -> & _)].
  { cbn in Hm. lia. }
  eexists. split; [reflexivity |]. split; [reflexivity |].
  intros code' context'. unfold get_code_completion.
  cbn [completion_cache set_completion_cache].
  now rewrite (cached_response_hit key now' _ response Hkey
                 (getitem_setitem key response d) Hfresh).
Qed.

Lemma add_to_cache_no_error key response self :
  finish_reason response <> "error" ->
  no_error_cached (completion_cache self) ->
  no_error_cached (completion_cache (snd (_add_to_cache key response self))).
Proof.
  intros Hok Hne.
  destruct (add_to_cache_outcome key response self)
    as [(_ & _ & ->) | (_ & d & -> & Hd)]; [exact Hne |].
  cbn [snd completion_cache set_completion_cache].
  apply Forall_setitem; [intros k'; exact Hok |].
  destruct Hd as [-> | [oldest ->]]; [exact Hne |].
  now apply Forall_delitem.
Qed.

Lemma public_calls_cache_no_error (os : list op) :
  forallb public os = true ->
  forall self,
    no_error_cached (completion_cache self) ->
    no_error_cached
      (completion_cache (apply_ops generate_completion os self)).
Proof.
  unfold apply_ops.
  induction os as [|o rest IH]; intros Hpub self Hne; [exact Hne |].
  simpl in Hpub. apply andb_prop in Hpub as [Ho Hrest].
  simpl. apply IH; [exact Hrest |].
  destruct o as [code context cache_key now | key response |];
    [| discriminate Ho | constructor].
  simpl. unfold get_code_completion.
  destruct (cached_response cache_key now (completion_cache self));
    [exact Hne |].
  destruct (generate_completion _ (gemini_service self)) as [response service].
  destruct cache_key as [k |]; [| exact Hne].
  destruct (truthy (Some k)); [| exact Hne]. cbn [andb].
  destruct (String.eqb_spec (finish_reason response) "error") as [| Hok];
    [exact Hne |]. cbn [negb].
  pose proof (add_to_cache_no_error k response
                (set_gemini_service service self) Hok Hne) as H.
  now destruct (_add_to_cache k response (set_gemini_service service self))
    as [[[] | e] self'].
Qed.

(** X9.  An error response is never cached: whatever completions are asked of
    a new assistant and however often its cache is cleared, no entry of
    the cache has [finish_reason] ["error"]. *)
Theorem error_responses_are_never_cached :
  forall (service : S) (os : list op),
    forallb public os = true ->
    no_error_cached
      (completion_cache
         (apply_ops generate_completion os (__init__ service))).
Proof.
  intros service os Hpub.
  apply public_calls_cache_no_error; [exact Hpub | constructor].
Qed.

End CacheGuarantees.

Lemma add_to_cache_on_empty_sizeless_cache :
  fst (_add_to_cache "k" (response_at "X" 0) (mkAIAssistant 0 [] 0))
  = Raise ValueError /\
  snd (_add_to_cache "k" (response_at "X" 0) (mkAIAssistant 0 [] 0))
  = mkAIAssistant 0 [] 0.
Proof.
  destruct (add_to_cache_raises_only_when_empty_and_sizeless
              (mkAIAssistant 0 [] 0) "k" (response_at "X" 0))
    as (Hiff & Hsame & _).
  assert (H : fst (_add_to_cache "k" (response_at "X" 0)
                     (mkAIAssistant 0 [] 0)) = Raise ValueError).
  { apply Hiff. split; [reflexivity | simpl; lia]. }
  split; [exact H | exact (Hsame H)].
Defined.

Lemma answer_stored_and_served_again :
  exists self',
    get_code_completion echo_service "code" "" (Some "k") 0 (__init__ 7)
    = (Ok (response_at "code" 7), self') /\
    gemini_service self' = 8 /\
    forall code' context',
      get_code_completion echo_service code' context' (Some "k") 100 self'
      = (Ok (response_at "code" 7), self').
Proof.
  apply (stored_answer_is_served_from_cache
           echo_service (__init__ 7) "code" "" "k" 0 100).
  - discriminate.
  - simpl. lia.
  - reflexivity.
  - discriminate.
  - simpl. lia.
Defined.

Lemma two_completions_cache_no_error :
  no_error_cached
    (completion_cache
       (apply_ops echo_service
          [Complete "a" "" (Some "k1") 0; Complete "b" "" (Some "k2") 1]
          (__init__ 0))).
Proof.
  apply (error_responses_are_never_cached echo_service 0
           [Complete "a" "" (Some "k1") 0; Complete "b" "" (Some "k2") 1]).
  reflexivity.
Defined.

(** ** Language detection *)

Section Language.

Lemma ascii_lower_idem (c : ascii) : ascii_lower (ascii_lower c) = ascii_lower c.
Proof.
  destruct c as [[] [] [] [] [] [] [] []]; reflexivity.
Qed.

Lemma lower_idem (s : string) : lower (lower s) = lower s.
Proof.
  induction s as [|c rest IH]; simpl; [reflexivity |].
  now rewrite ascii_lower_idem, IH.
Qed.

Lemma lower_app (a b : string) : lower (a ++ b) = (lower a ++ lower b)%string.
Proof.
  induction a as [|c rest IH]; simpl; [reflexivity | now rewrite IH].
Qed.

Lemma lower_empty (s : string) : String.eqb (lower s) "" = String.eqb s "".
Proof. now destruct s. Qed.

Lemma prefix_app (needle rest : string) : prefix needle (needle ++ rest) = true.
Proof.
  induction needle as [|c needle IH]; simpl; [now destruct rest |].
  destruct (ascii_dec c c); [exact IH | contradiction].
Qed.

Lemma str_in_app (needle a b : string) :
  str_in needle (a ++ needle ++ b) = true.
Proof.
  induction a as [|c rest IH].
  - cbn [append]. pose proof (prefix_app needle b) as H.
    destruct (needle ++ b)%string; cbn [str_in]; now rewrite H.
  - cbn [append str_in]. rewrite IH. apply orb_true_r.
Qed.

Lemma detect_language_lower (s : string) :
  _detect_language (lower s) = _detect_language s.
Proof.
  unfold _detect_language. now rewrite lower_empty, lower_idem.
Qed.

(** X10.  Detection ignores letter case: two contexts that differ only in the
    case of their letters get the same language. *)
Theorem detection_ignores_case :
  forall s1 s2 : string,
    lower s1 = lower s2 -> _detect_language s1 = _detect_language s2.
Proof.
  intros s1 s2 E.
  now rewrite <- (detect_language_lower s1), <- (detect_language_lower s2), E.
Qed.

Lemma shouted_python_is_python :
  _detect_language "DEF F(X):" = _detect_language "def f(x):".
Proof.
  apply (detection_ignores_case "DEF F(X):" "def f(x):"). reflexivity.
Defined.

(** X11.  The Python keywords are tested first: a context in which one of them
    occurs anywhere is taken for Python, whatever else it contains (a
    JavaScript or Java file with an [import ] or a [class ] line, for
    one). *)
Theorem python_keyword_anywhere_means_python :
  forall (keyword before after : string),
    In keyword ["def "; "import "; "class "; "__init__"; "self."] ->
    _detect_language (before ++ keyword ++ after) = "python".
Proof.
  intros keyword before after HIn. unfold _detect_language.
  assert (Hlow : lower keyword = keyword).
  { simpl in HIn.
    destruct HIn as [<- | [<- | [<- | [<- | [<- | []]]]]]; reflexivity. }
  assert (Hne : String.eqb (before ++ keyword ++ after) "" = false).
  { destruct before; [| reflexivity]. simpl in HIn |- *.
    destruct HIn as [<- | [<- | [<- | [<- | [<- | []]]]]]; reflexivity. }
  rewrite Hne, !lower_app, Hlow.
  assert (Hany : any_in ["def "; "import "; "class "; "__init__"; "self."]
                   (lower before ++ keyword ++ lower after) = true).
  { unfold any_in. apply existsb_exists. exists keyword.
    split; [exact HIn | apply str_in_app]. }
  now rewrite Hany.
Qed.

Lemma javascript_module_taken_for_python :
  _detect_language ("const fs = 0; " ++ "import " ++ "x from 'y';")
  = "python".
Proof.
  apply (python_keyword_anywhere_means_python
           "import " "const fs = 0; " "x from 'y';").
  simpl. auto.
Defined.

End Language.

(** ** Sorting and deleting *)

Section SortFacts.
Context {A : Type}.
Variable f : A -> Z.

Lemma insert_sorted_perm (x : A) (l : list A) :
  Permutation (insert_sorted f x l) (x :: l).
Proof.
  induction l as [|y rest IH]; simpl; [reflexivity |].
  destruct (f y <? f x); [| reflexivity].
  rewrite IH. apply perm_swap.
Qed.

Lemma py_sorted_perm (l : list A) : Permutation (py_sorted f l) l.
Proof.
  induction l as [|x rest IH]; simpl; [reflexivity |].
  rewrite insert_sorted_perm. now constructor.
Qed.

Lemma insert_sorted_snoc (y x : A) (l : list A) :
  f y <= f x -> insert_sorted f y (l ++ [x]) = insert_sorted f y l ++ [x].
Proof.
  intros Hle. induction l as [|z rest IH]; simpl.
  - destruct (Z.ltb_spec (f x) (f y)); [lia | reflexivity].
  - destruct (f z <? f y); [now rewrite IH | reflexivity].
Qed.

(** An element whose key is not below any other, put last, is sorted
    last. *)
Lemma py_sorted_snoc (x : A) (l : list A) :
  (forall y, In y l -> f y <= f x) ->
  py_sorted f (l ++ [x]) = py_sorted f l ++ [x].
Proof.
  induction l as [|y rest IH]; intros Hle; simpl; [reflexivity |].
  rewrite IH by (intros z Hz; apply Hle; now right).
  apply insert_sorted_snoc. apply Hle. now left.
Qed.

(** The sorted list starts with the first of the elements of least
    key. *)
Lemma py_sorted_head (l : list A) :
  l <> [] ->
  exists h tl before after,
    py_sorted f l = h :: tl /\
    l = before ++ h :: after /\
    (forall y, In y before -> f h < f y) /\
    (forall y, In y after -> f h <= f y).
Proof.
  induction l as [|x rest IH]; [congruence | intros _].
  destruct rest as [|x' rest'].
  - exists x, [], [], []. simpl. repeat split; intros y [].
  - destruct IH as (h & tl & before & after & Es & El & Hb & Ha);
      [discriminate |].
    cbn [py_sorted] in Es |- *. rewrite Es. cbn [insert_sorted].
    destruct (Z.ltb_spec (f h) (f x)) as [Hlt | Hge].
    + exists h, (insert_sorted f x tl), (x :: before), after.
      rewrite El. repeat split; auto.
      intros y [<- | HIn]; auto.
    + exists x, (h :: tl), [], (x' :: rest').
      repeat split; [intros y [] |].
      intros y HIn. rewrite El in HIn. apply in_app_or in HIn.
      destruct HIn as [HIn | [<- | HIn]].
      * specialize (Hb y HIn). lia.
      * lia.
      * specialize (Ha y HIn). lia.
Qed.

End SortFacts.

Section DeleteMany.
Context {V : Type}.
Implicit Types (d : dict V) (olds : list (string * V)).

Lemma In_keys_delitem_other (k k' : string) d :
  k' <> k -> In k' (keys d) -> In k' (keys (delitem k d)).
Proof.
  intros Hne. induction d as [|[k0 v0] rest IH]; simpl; [easy |].
  destruct (String.eqb_spec k k0) as [<- | Hne0]; simpl.
  - intros [E | HIn]; [congruence | exact HIn].
  - intros [E | HIn]; auto.
Qed.

Lemma length_delete_many olds :
  forall d,
    NoDup (map fst olds) -> incl (map fst olds) (keys d) ->
    (List.length (fold_left (fun d old => delitem (fst old) d) olds d)
     + List.length olds = List.length d)%nat.
Proof.
  induction olds as [|[k v] rest IH]; intros d Hnd Hincl; simpl;
    [lia |].
  apply NoDup_cons_iff in Hnd as [Hnotin Hnd].
  rewrite Nat.add_succ_r, IH.
  - apply length_delitem. apply Hincl. now left.
  - exact Hnd.
  - intros k' Hk'. apply In_keys_delitem_other.
    + intros ->. contradiction.
    + apply Hincl. now right.
Qed.

Lemma getitem_delete_many (k : string) olds :
  forall d,
    ~ In k (map fst olds) ->
    getitem k (fold_left (fun d old => delitem (fst old) d) olds d)
    = getitem k d.
Proof.
  induction olds as [|[k0 v0] rest IH]; intros d Hnotin; simpl;
    [reflexivity |].
  rewrite IH by (intros HIn; apply Hnotin; now right).
  apply getitem_delitem_other. intros ->. apply Hnotin. now left.
Qed.

Lemma NoDup_keys_delete_many olds :
  forall d,
    NoDup (keys d) ->
    NoDup (keys (fold_left (fun d old => delitem (fst old) d) olds d)).
Proof.
  induction olds as [|[k0 v0] rest IH]; intros d Hnd; simpl; [exact Hnd |].
  apply IH. now apply NoDup_keys_delitem.
Qed.

End DeleteMany.

(** ** GeminiCLIService: the code context *)

Section CodeContext.
Implicit Types (self : GeminiCLIService) (d : dict context_entry).

Lemma code_context_delete_many (olds : list (string * context_entry)) :
  forall self,
    code_context
      (fold_left (fun self old =>
                    set_code_context
                      (delitem (fst old) (code_context self)) self)
                 olds self)
    = fold_left (fun d old => delitem (fst old) d) olds (code_context self).
Proof.
  induction olds as [|old rest IH]; intros self; simpl; [reflexivity |].
  now rewrite IH.
Qed.

(** The dict that [update_code_context] leaves. *)
Lemma update_code_context_dict (file_path content : string) (now : Z) self :
  code_context (update_code_context file_path content now self) =
    let d := setitem file_path
               (mkContextEntry content (_detect_language content) now)
               (code_context self) in
    if len d >? 10 then
      fold_left (fun d old => delitem (fst old) d)
                (drop_last 10 (py_sorted (fun x => updated_at (snd x)) d)) d
    else d.
Proof.
  unfold update_code_context. cbv zeta.
  cbn [code_context set_code_context].
  destruct (len _ >? 10); [| reflexivity].
  now rewrite code_context_delete_many.
Qed.

Lemma drop_last_sorted_keys (n : nat) d :
  NoDup (keys d) ->
  NoDup (map fst (drop_last n (py_sorted (fun x => updated_at (snd x)) d))) /\
  incl (map fst (drop_last n (py_sorted (fun x => updated_at (snd x)) d)))
       (keys d).
Proof.
  intros Hnd. set (sorted := py_sorted (fun x => updated_at (snd x)) d).
  assert (Hperm : Permutation (map fst sorted) (keys d)).
  { unfold keys. apply Permutation_map. apply py_sorted_perm. }
  unfold drop_last.
  set (k := (List.length sorted - n)%nat).
  assert (Hsplit : map fst sorted
                   = map fst (firstn k sorted) ++ map fst (skipn k sorted)).
  { now rewrite <- map_app, firstn_skipn. }
  split.
  - apply (NoDup_app_remove_r _ (map fst (skipn k sorted))).
    rewrite <- Hsplit. apply (Permutation_NoDup (Permutation_sym Hperm) Hnd).
  - intros x HIn. apply (Permutation_in x Hperm). rewrite Hsplit.
    apply in_or_app. now left.
Qed.

Lemma update_code_context_bounded (file_path content : string) (now : Z) self :
  NoDup (keys (code_context self)) ->
  NoDup (keys (code_context (update_code_context file_path content now self)))
  /\ len (code_context (update_code_context file_path content now self)) <= 10.
Proof.
  intros Hnd. rewrite update_code_context_dict. cbv zeta.
  set (d := setitem file_path _ (code_context self)).
  assert (Hnd' : NoDup (keys d)) by now apply NoDup_keys_setitem.
  destruct (Z.gtb_spec (len d) 10) as [Hbig | Hsmall]; [| now split].
  split; [now apply NoDup_keys_delete_many |].
  destruct (drop_last_sorted_keys 10 d Hnd') as [Hnd'' Hincl].
  pose proof (length_delete_many _ d Hnd'' Hincl) as Hlen.
  unfold drop_last in Hlen |- *.
  rewrite length_firstn in Hlen.
  pose proof (Permutation_length
                (py_sorted_perm (fun x => updated_at (snd x)) d)) as Hsame.
  unfold len in *. lia.
Qed.

Lemma apply_updates_bounded (updates : list (string * string * Z)) :
  forall self,
    NoDup (keys (code_context self)) -> len (code_context self) <= 10 ->
    NoDup (keys (code_context (apply_updates updates self))) /\
    len (code_context (apply_updates updates self)) <= 10.
Proof.
  unfold apply_updates.
  induction updates as [|u rest IH]; intros self Hnd Hlen; [now split |].
  simpl.
  destruct (update_code_context_bounded (fst (fst u)) (snd (fst u)) (snd u)
              self Hnd) as [Hnd' Hlen'].
  now apply IH.
Qed.

(** X12.  However many files are reported through [update_code_context], and
    whatever the clock reads, a service that starts with no code context
    tracks at most 10 files, each once. *)
Theorem code_context_tracks_at_most_ten_files :
  forall (updates : list (string * string * Z)) self,
    code_context self = [] ->
    len (code_context (apply_updates updates self)) <= 10 /\
    NoDup (keys (code_context (apply_updates updates self))).
Proof.
  intros updates self Hempty.
  destruct (apply_updates_bounded updates self) as [Hnd Hlen].
  - rewrite Hempty. constructor.
  - rewrite Hempty. cbn. lia.
  - now split.
Qed.

Lemma firstn_app_l {A : Type} (n : nat) (l1 l2 : list A) :
  (n <= List.length l1)%nat -> firstn n (l1 ++ l2) = firstn n l1.
Proof.
  intros Hle. rewrite firstn_app.
  replace (n - List.length l1)%nat with 0%nat by lia.
  cbn. apply app_nil_r.
Qed.

Lemma In_firstn {A : Type} (n : nat) (x : A) (l : list A) :
  In x (firstn n l) -> In x l.
Proof.
  intros HIn. rewrite <- (firstn_skipn n l). apply in_or_app. now left.
Qed.

(** X13.  A file just reported is not dropped: the file is tracked
    afterwards with its new content, the language detected in it and the
    time of the report, provided no tracked file carries a later time.  A
    report on a file already tracked drops no file at all. *)
Theorem reported_file_stays_tracked :
  forall self (file_path content : string) (now : Z),
    NoDup (keys (code_context self)) ->
    len (code_context self) <= 10 ->
    Forall (fun kv => updated_at (snd kv) <= now) (code_context self) ->
    getitem file_path
      (code_context (update_code_context file_path content now self))
    = Some (mkContextEntry content (_detect_language content) now) /\
    (getitem file_path (code_context self) <> None ->
     keys (code_context (update_code_context file_path content now self))
     = keys (code_context self)).
Proof.
  intros self file_path content now Hnd Hlen Hold.
  rewrite update_code_context_dict. cbv zeta.
  set (entry := mkContextEntry content (_detect_language content) now).
  destruct (getitem file_path (code_context self)) as [old |] eqn:Eget.
  - assert (Hsame : len (setitem file_path entry (code_context self))
                    = len (code_context self)).
    { apply setitem_present. congruence. }
    destruct (Z.gtb_spec (len (setitem file_path entry (code_context self)))
                         10); [lia |].
    split; [apply getitem_setitem |].
    intros _. apply keys_setitem_present. congruence.
  - split; [| congruence].
    rewrite setitem_new by assumption.
    destruct (len (code_context self ++ [(file_path, entry)]) >? 10);
      [| rewrite <- setitem_new by assumption; apply getitem_setitem].
    rewrite getitem_delete_many.
    { rewrite <- setitem_new by assumption. apply getitem_setitem. }
    rewrite py_sorted_snoc.
    2:{ intros y HIn. rewrite Forall_forall in Hold.
        cbn [snd updated_at]. now apply Hold. }
    unfold drop_last. rewrite length_app. cbn [List.length].
    rewrite firstn_app_l by lia.
    intros HIn. apply in_map_iff in HIn as ([k v] & Ek & HIn).
    cbn in Ek. subst k. apply In_firstn in HIn.
    apply (Permutation_in _ (py_sorted_perm _ _)) in HIn.
    apply getitem_None in Eget. apply Eget. unfold keys.
    now apply (in_map fst) in HIn.
Qed.

Lemma third_file_stays_tracked :
  let self :=
    mkGeminiCLIService true "gemini-pro" (mkRateLimiter 60 [] false) []
      [("a.py", mkContextEntry "x" "text" 1);
       ("b.py", mkContextEntry "y" "text" 2)] in
  getitem "c.py" (code_context (update_code_context "c.py" "def f" 3 self))
  = Some (mkContextEntry "def f" (_detect_language "def f") 3) /\
  (getitem "c.py" (code_context self) <> None ->
   keys (code_context (update_code_context "c.py" "def f" 3 self))
   = keys (code_context self)).
Proof.
  intros self.
  apply (reported_file_stays_tracked self "c.py" "def f" 3).
  - repeat constructor; simpl; intuition discriminate.
  - vm_compute. discriminate.
  - repeat constructor; simpl; lia.
Defined.

(** X14.  When 10 files are tracked and an eleventh is reported (with a time
    not before theirs), exactly one file is dropped: the one updated
    longest ago, and among equals the one tracked first.  The others stay
    in their order and the new file comes last. *)
Theorem eleventh_file_drops_the_oldest :
  forall self (file_path content : string) (now : Z),
    NoDup (keys (code_context self)) ->
    len (code_context self) = 10 ->
    getitem file_path (code_context self) = None ->
    Forall (fun kv => updated_at (snd kv) <= now) (code_context self) ->
    exists before oldest after,
      code_context self = before ++ oldest :: after /\
      (forall kv, In kv before ->
                  updated_at (snd oldest) < updated_at (snd kv)) /\
      (forall kv, In kv after ->
                  updated_at (snd oldest) <= updated_at (snd kv)) /\
      code_context (update_code_context file_path content now self)
      = before ++ after
        ++ [(file_path,
             mkContextEntry content (_detect_language content) now)].
Proof.
  intros self file_path content now Hnd Hlen Hnew Hold.
  rewrite update_code_context_dict. cbv zeta.
  set (entry := mkContextEntry content (_detect_language content) now).
  rewrite setitem_new by assumption.
  assert (Hlen11 : len (code_context self ++ [(file_path, entry)]) = 11).
  { rewrite len_app, Hlen. reflexivity. }
  rewrite Hlen11. cbn [Z.gtb Z.compare Pos.compare Pos.compare_cont].
  rewrite py_sorted_snoc.
  2:{ intros y HIn. rewrite Forall_forall in Hold.
      cbn [snd updated_at]. now apply Hold. }
  destruct (py_sorted_head (fun x => updated_at (snd x)) (code_context self))
    as (h & tl & before & after & Es & Ed & Hb & Ha).
  { intros E. rewrite E in Hlen. discriminate Hlen. }
  exists before, h, after. split; [exact Ed |].
  split; [exact Hb |]. split; [exact Ha |].
  assert (Hlen' : List.length (py_sorted (fun x => updated_at (snd x))
                                 (code_context self)) = 10%nat).
  { rewrite (Permutation_length (py_sorted_perm _ _)).
    unfold len in Hlen. lia. }
  unfold drop_last. rewrite length_app, Hlen'. cbn [List.length Nat.add Nat.sub].
  rewrite Es. cbn [firstn app fold_left fst].
  destruct h as [k v]. cbn [fst].
  rewrite Ed in Hnd |- *. rewrite <- app_assoc. cbn [app].
  rewrite delitem_split; [reflexivity |].
  unfold keys in Hnd. rewrite map_app in Hnd. cbn [map fst] in Hnd.
  apply NoDup_remove_2 in Hnd. intros HIn. apply Hnd.
  apply in_or_app. now left.
Qed.

Lemma twelve_reports_leave_ten_files :
  let updates := map (fun i => (key_of i, "x", Z.of_nat i)) (seq 0 12) in
  len (code_context (apply_updates updates (tracking 0))) <= 10 /\
  NoDup (keys (code_context (apply_updates updates (tracking 0)))).
Proof.
  intros updates.
  apply (code_context_tracks_at_most_ten_files updates (tracking 0)).
  reflexivity.
Defined.

Lemma eleventh_file_drops_file_zero :
  exists before oldest after,
    code_context (tracking 10) = before ++ oldest :: after /\
    (forall kv, In kv before ->
                updated_at (snd oldest) < updated_at (snd kv)) /\
    (forall kv, In kv after ->
                updated_at (snd oldest) <= updated_at (snd kv)) /\
    code_context (update_code_context "new.py" "def f" 20 (tracking 10))
    = before ++ after
      ++ [("new.py",
           mkContextEntry "def f" (_detect_language "def f") 20)].
Proof.
  apply (eleventh_file_drops_the_oldest (tracking 10) "new.py" "def f" 20).
  - cbn. repeat constructor; simpl; intuition discriminate.
  - reflexivity.
  - reflexivity.
  - cbn. repeat constructor; simpl; lia.
Defined.

End CodeContext.

(** ** GeminiCLIService: requests *)

Section Requests.
Context {World : Type}.
Variable gcloud_predict :
  string -> string -> AIRequest -> World -> gcloud_run * N * World.
Implicit Types (self : GeminiCLIService) (world : World).

Lemma batch_completion_outcome self (text : string) (request : AIRequest)
  (clock : Z) world :
  exists response now world',
    _batch_completion gcloud_predict self text request (clock, world)
    = (response, (now, world')) /\
    clock <= now /\ created_at response = now.
Proof.
  unfold _batch_completion.
  destruct (gcloud_predict (model_name self) text request world)
    as [[run elapsed] world'].
  do 3 eexists. split; [reflexivity |]. split; [lia |].
  now destruct run.
Qed.

Lemma generate_completion_anonymous (request : AIRequest) self
  (env : Z * World) :
  authenticated self = false ->
  generate_completion gcloud_predict request self env =
    (Completed (new_response "// Please authenticate with Google Cloud first"
                             "error" "" (fst env)),
     (self, env)).
Proof.
  intros Hauth. unfold generate_completion. destruct env as [clock world].
  now rewrite Hauth.
Qed.

(** X15.  A request with [stream=True] never succeeds.  [generate_completion]
    awaits the async generator that [_stream_completion] returns, which
    raises; the [except] turns that into an error response.  [gcloud] is
    not run (the world is as before), yet the limiter has recorded the
    request. *)
Theorem streaming_request_always_fails :
  forall (request : AIRequest) self (settled_at clock : Z) world,
    authenticated self = true ->
    stream request = true ->
    settled settled_at (rate_limiter self) -> settled_at <= clock ->
    0 < requests_per_minute (rate_limiter self) ->
    exists t response,
      clock <= t <= clock + 60 /\
      generate_completion gcloud_predict request self (clock, world) =
        (Completed response,
         (set_rate_limiter
            (mkRateLimiter (requests_per_minute (rate_limiter self))
               (RateLimiter.purge clock (request_times (rate_limiter self))
                ++ [clock]) false) self,
          (t, world))) /\
      finish_reason response = "error" /\
      prefix "// Error generating completion: " (content response) = true.
Proof.
  intros request self c0 clock world Hauth Hstream Hs Hclock Hpos.
  destruct (wait_returns_within_a_minute c0 clock (rate_limiter self)
              Hs Hclock Hpos) as (t & E & Ht).
  exists t. eexists. split; [exact Ht |]. split.
  - unfold generate_completion. rewrite Hauth, E, Hstream. reflexivity.
  - split; reflexivity.
Qed.

Lemma last_items_all {A : Type} (n : nat) (l : list A) :
  (List.length l <= n)%nat -> last_items n l = l.
Proof.
  intros Hle. unfold last_items.
  now replace (List.length l - n)%nat with 0%nat by lia.
Qed.

Lemma length_last_items {A : Type} (n : nat) (l : list A) :
  (List.length (last_items n l) <= n)%nat.
Proof. unfold last_items. rewrite length_skipn. lia. Qed.

Lemma trim_after_exchange {A : Type} (h : list A) (u a : A) :
  (if len ((h ++ [u]) ++ [a]) >? 20
   then last_items 20 ((h ++ [u]) ++ [a])
   else (h ++ [u]) ++ [a])
  = last_items 18 h ++ [u; a].
Proof.
  rewrite <- app_assoc. cbn [app].
  assert (Hlen : List.length (h ++ [u; a]) = (List.length h + 2)%nat).
  { rewrite length_app. reflexivity. }
  destruct (Z.gtb_spec (len (h ++ [u; a])) 20) as [Hbig | Hsmall];
    unfold len in *.
  - unfold last_items. rewrite skipn_app, Hlen.
    replace (List.length h + 2 - 20)%nat with (List.length h - 18)%nat
      by lia.
    now replace (List.length h - 18 - List.length h)%nat with 0%nat by lia.
  - rewrite last_items_all by lia. reflexivity.
Qed.

(** X16.  The conversation history after a chat.  The user's message is always
    appended.  When the reply is not an error it is appended too, and the
    history is cut to its last 20 entries: the last 18 of the earlier ones
    and the new exchange.  When the reply is an error nothing is cut and
    the user's message stays without a reply, so failed chats make the
    history grow by one entry each, also past 20. *)
Theorem chat_history_after_a_chat :
  forall (message context : string) self (settled_at clock : Z) world,
    authenticated self = true ->
    settled settled_at (rate_limiter self) -> settled_at <= clock ->
    0 < requests_per_minute (rate_limiter self) ->
    exists response self' env',
      chat_completion gcloud_predict message context self (clock, world)
      = (Completed response, (self', env')) /\
      (finish_reason response <> "error" ->
       conversation_history self'
       = last_items 18 (conversation_history self)
         ++ [mkMessage "user" message;
             mkMessage "assistant" (content response)] /\
       len (conversation_history self') <= 20) /\
      (finish_reason response = "error" ->
       conversation_history self'
       = conversation_history self ++ [mkMessage "user" message]).
Proof.
  intros message context self c0 clock world Hauth Hs Hclock Hpos.
  destruct (wait_returns_within_a_minute c0 clock (rate_limiter self)
              Hs Hclock Hpos) as (t & E & Ht).
  unfold chat_completion. rewrite Hauth, E. cbn [negb].
  match goal with
  | |- context [_batch_completion gcloud_predict ?s ?p ?r ?e] =>
      destruct (_batch_completion gcloud_predict s p r e)
        as [response env'] eqn:Eb
  end.
  destruct (String.eqb_spec (finish_reason response) "error") as [Herr | Hok];
    cbn [negb].
  - do 3 eexists. split; [reflexivity |].
    split; [congruence |]. intros _. reflexivity.
  - do 3 eexists. split; [reflexivity |].
    split; [| congruence]. intros _.
    cbn [conversation_history set_conversation_history set_rate_limiter].
    match goal with
    | |- context [if ?c then _ else _] => destruct c eqn:Ec
    end; cbn [conversation_history set_conversation_history
              set_rate_limiter];
      pose proof (trim_after_exchange (conversation_history self)
                    (mkMessage "user" message)
                    (mkMessage "assistant" (content response))) as Htrim;
      rewrite Ec in Htrim; rewrite Htrim;
      (split; [reflexivity |]);
      pose proof (length_last_items 18 (conversation_history self));
      unfold len; rewrite length_app; cbn [List.length]; lia.
Qed.

End Requests.

Lemma streamed_request_on_ready_service :
  exists t response,
    0 <= t <= 0 + 60 /\
    generate_completion (canned_gcloud "x")
      (mkAIRequest "code" "" 512 (3 # 10) true "completion")
      ready_service (0, tt) =
      (Completed response,
       (set_rate_limiter
          (mkRateLimiter (requests_per_minute (rate_limiter ready_service))
             (RateLimiter.purge 0 (request_times (rate_limiter ready_service))
              ++ [0]) false) ready_service,
        (t, tt))) /\
    finish_reason response = "error" /\
    prefix "// Error generating completion: " (content response) = true.
Proof.
  apply (streaming_request_always_fails (canned_gcloud "x")
           (mkAIRequest "code" "" 512 (3 # 10) true "completion")
           ready_service 0 0 tt).
  - reflexivity.
  - reflexivity.
  - split; [reflexivity | constructor].
  - lia.
  - simpl. lia.
Defined.

Lemma first_chat_on_ready_service :
  exists response self' env',
    chat_completion (canned_gcloud "yo") "hi" "" ready_service (0, tt)
    = (Completed response, (self', env')) /\
    (finish_reason response <> "error" ->
     conversation_history self'
     = last_items 18 (conversation_history ready_service)
       ++ [mkMessage "user" "hi"; mkMessage "assistant" (content response)]
     /\ len (conversation_history self') <= 20) /\
    (finish_reason response = "error" ->
     conversation_history self'
     = conversation_history ready_service ++ [mkMessage "user" "hi"]).
Proof.
  apply (chat_history_after_a_chat (canned_gcloud "yo") "hi" ""
           ready_service 0 0 tt).
  - reflexivity.
  - split; [reflexivity | constructor].
  - lia.
  - simpl. lia.
Defined.

(** ** The assistant on top of the service *)

Section Composition.
Context {World : Type}.
Variable gcloud_predict :
  string -> string -> AIRequest -> World -> gcloud_run * N * World.
Implicit Types
  (self : AIAssistant (GeminiCLIService * (Z * World))).

Lemma serves_service_of : serves gcloud_predict (service_of gcloud_predict).
Proof.
  intros request self env response state E. unfold service_of.
  cbn [fst snd]. now rewrite E.
Qed.

Lemma add_to_cache_keeps_service {S : Type} (key : string)
  (response : AIResponse) (a : AIAssistant S) :
  gemini_service (snd (_add_to_cache key response a)) = gemini_service a.
Proof.
  destruct (add_to_cache_outcome key response a)
    as [(_ & _ & ->) | (_ & d & -> & _)]; reflexivity.
Qed.

(** On a miss the service of the assistant ends in the state in which the
    call of the service left it. *)
Lemma get_code_completion_service
  (f : AIRequest -> GeminiCLIService * (Z * World)
       -> AIResponse * (GeminiCLIService * (Z * World)))
  self (code context : string) (cache_key : option string) (now : Z) :
  cached_response cache_key now (completion_cache self) = None ->
  gemini_service (snd (get_code_completion f code context cache_key now self))
  = snd (f (completion_request code context) (gemini_service self)).
Proof.
  intros Hmiss. unfold get_code_completion. rewrite Hmiss.
  fold (completion_request code context).
  destruct (f (completion_request code context) (gemini_service self))
    as [response state].
  destruct cache_key as [k |]; [| reflexivity].
  destruct (truthy (Some k) && negb (finish_reason response =? "error")%string);
    [| reflexivity].
  pose proof (add_to_cache_keeps_service k response
                (set_gemini_service state self)) as H.
  now destruct (_add_to_cache k response (set_gemini_service state self))
    as [[[] | e] self'].
Qed.

(** X17.  An assistant whose service is not authenticated answers every
    completion that misses the cache with the error response of the
    service and is left exactly as it was: nothing is cached, nothing is
    recorded by the limiter, [gcloud] is not run. *)
Theorem anonymous_assistant_changes_nothing :
  forall f, serves gcloud_predict f ->
  forall self code context cache_key now,
    authenticated (fst (gemini_service self)) = false ->
    cached_response cache_key now (completion_cache self) = None ->
    get_code_completion f code context cache_key now self =
      (Ok (new_response "// Please authenticate with Google Cloud first"
                        "error" "" (fst (snd (gemini_service self)))),
       self).
Proof.
  intros f Hf self code context cache_key now Hauth Hmiss.
  destruct self as [[service env] cache size]. cbn [gemini_service fst snd] in *.
  unfold get_code_completion. cbn [completion_cache gemini_service] in *.
  rewrite Hmiss.
  rewrite (Hf _ _ _ _ _ (generate_completion_anonymous gcloud_predict _
                           service env Hauth)).
  destruct cache_key as [k |]; [| reflexivity].
  cbn [finish_reason new_response]. now rewrite andb_false_r.
Qed.

(** X18.  What a completion costs at the limiter.  With an authenticated
    service and a positive limit, a completion that misses the cache adds
    exactly one recorded time, the time at which the call started; a
    completion served from the cache leaves the service untouched. *)
Theorem each_miss_takes_one_limiter_slot :
  forall f, serves gcloud_predict f ->
  forall self code context cache_key now service clock world settled_at,
    gemini_service self = (service, (clock, world)) ->
    authenticated service = true ->
    settled settled_at (rate_limiter service) -> settled_at <= clock ->
    0 < requests_per_minute (rate_limiter service) ->
    let after :=
      snd (get_code_completion f code context cache_key now self) in
    (cached_response cache_key now (completion_cache self) = None ->
     request_times (rate_limiter (fst (gemini_service after)))
     = RateLimiter.purge clock (request_times (rate_limiter service))
       ++ [clock]) /\
    (cached_response cache_key now (completion_cache self) <> None ->
     gemini_service after = gemini_service self).
Proof.
  intros f Hf self code context cache_key now service clock world c0
         Hservice Hauth Hs Hclock Hpos after. subst after. split.
  - intros Hmiss. rewrite get_code_completion_service by assumption.
    rewrite Hservice.
    destruct (wait_returns_within_a_minute c0 clock (rate_limiter service)
                Hs Hclock Hpos) as (t & E & Ht).
    assert (Hgen : exists response env',
               generate_completion gcloud_predict
                 (completion_request code context) service (clock, world)
               = (Completed response,
                  (set_rate_limiter
                     (mkRateLimiter (requests_per_minute (rate_limiter service))
                        (RateLimiter.purge clock
                           (request_times (rate_limiter service)) ++ [clock])
                        false) service, env'))).
    { unfold generate_completion. rewrite Hauth, E. cbn [negb stream
        completion_request].
      match goal with
      | |- context [_batch_completion gcloud_predict ?s ?p ?r ?e] =>
          destruct (_batch_completion gcloud_predict s p r e)
            as [response env']
      end.
      now exists response, env'. }
    destruct Hgen as (response & env' & Hgen).
    now rewrite (Hf _ _ _ _ _ Hgen).
  - intros Hhit. unfold get_code_completion.
    destruct (cached_response cache_key now (completion_cache self));
      [reflexivity | contradiction].
Qed.

End Composition.

Lemma anonymous_assistant_asked_once :
  get_code_completion (service_of (canned_gcloud "x")) "code" "" (Some "k") 0
    (__init__ (anonymous_service, (0, tt))) =
    (Ok (new_response "// Please authenticate with Google Cloud first"
                      "error" ""
                      (fst (snd (gemini_service
                                   (__init__ (anonymous_service, (0, tt))))))),
     __init__ (anonymous_service, (0, tt))).
Proof.
  apply (anonymous_assistant_changes_nothing (canned_gcloud "x")
           (service_of (canned_gcloud "x"))
           (serves_service_of (canned_gcloud "x"))).
  - reflexivity.
  - reflexivity.
Defined.

Lemma first_completion_takes_one_slot :
  let self := __init__ (ready_service, (5, tt)) in
  let after :=
    snd (get_code_completion (service_of (canned_gcloud "x"))
           "code" "" (Some "k") 5 self) in
  (cached_response (Some "k") 5 (completion_cache self) = None ->
   request_times (rate_limiter (fst (gemini_service after)))
   = RateLimiter.purge 5 (request_times (rate_limiter ready_service)) ++ [5])
  /\
  (cached_response (Some "k") 5 (completion_cache self) <> None ->
   gemini_service after = gemini_service self).
Proof.
  apply (each_miss_takes_one_limiter_slot (canned_gcloud "x")
           (service_of (canned_gcloud "x"))
           (serves_service_of (canned_gcloud "x"))
           (__init__ (ready_service, (5, tt))) "code" "" (Some "k") 5
           ready_service 5 tt 0).
  - reflexivity.
  - reflexivity.
  - split; [reflexivity | constructor].
  - lia.
  - simpl. lia.
Defined.

(** ** Streaming: the chunks of [_stream_completion] *)

Section Streaming.

Lemma firstn_plus {A : Type} (a b : nat) (l : list A) :
  firstn (a + b) l = firstn a l ++ firstn b (skipn a l).
Proof.
  revert l. induction a as [|a IH]; intros l; [reflexivity |].
  destruct l as [|x rest]; simpl.
  - now rewrite firstn_nil.
  - now rewrite IH.
Qed.

Lemma concat_slices {A : Type} (c m : nat) (l : list A) :
  List.concat (map (fun i => firstn c (skipn i l))
              (map (fun k => k * c)%nat (seq 0 m)))
  = firstn (m * c) l.
Proof.
  induction m as [|m IH]; [reflexivity |].
  rewrite seq_S, !map_app, concat_app, IH. cbn [map List.concat Nat.add].
  rewrite app_nil_r, <- firstn_plus. f_equal. lia.
Qed.

Lemma steps_reach_the_end (n c : nat) :
  (1 <= c)%nat -> (n <= (n + c - 1) / c * c)%nat.
Proof.
  intros Hc. pose proof (Nat.div_mod (n + c - 1) c ltac:(lia)) as Hdiv.
  pose proof (Nat.mod_upper_bound (n + c - 1) c ltac:(lia)). nia.
Qed.

Lemma step_inside (n c k : nat) :
  (1 <= c)%nat -> (k < (n + c - 1) / c)%nat -> (k * c < n)%nat.
Proof.
  intros Hc Hk. pose proof (Nat.div_mod (n + c - 1) c ltac:(lia)) as Hdiv.
  pose proof (Nat.mod_upper_bound (n + c - 1) c ltac:(lia)). nia.
Qed.

Lemma at_most_nineteen_steps (n : nat) :
  ((n + Nat.max 1 (n / 10) - 1) / Nat.max 1 (n / 10) <= 19)%nat.
Proof.
  pose proof (Nat.div_mod n 10 ltac:(lia)) as Hn.
  pose proof (Nat.mod_upper_bound n 10 ltac:(lia)) as Hr.
  set (c := Nat.max 1 (n / 10)).
  assert (Hc : (1 <= c)%nat) by (unfold c; lia).
  assert (Hnc : (n <= 10 * c + 9)%nat) by (unfold c; lia).
  pose proof (Nat.div_mod (n + c - 1) c ltac:(lia)) as Hdiv.
  pose proof (Nat.mod_upper_bound (n + c - 1) c ltac:(lia)).
  destruct (Nat.le_gt_cases ((n + c - 1) / c) 19) as [Hle | Hgt];
    [exact Hle |].
  assert (Hq : (20 * c <= c * ((n + c - 1) / c))%nat) by nia.
  destruct (Nat.eq_dec (n / 10) 0) as [E | E]; unfold c in *; nia.
Qed.

Lemma str_append_assoc (a b c : string) :
  ((a ++ b) ++ c = a ++ b ++ c)%string.
Proof.
  induction a as [|ch a IH]; cbn [append]; [reflexivity | now rewrite IH].
Qed.

Lemma concat_join (sep : string) (l1 l2 : list string) :
  l1 <> [] -> l2 <> [] ->
  String.concat sep (l1 ++ l2)
  = (String.concat sep l1 ++ sep ++ String.concat sep l2)%string.
Proof.
  intros H1 H2. induction l1 as [|x rest IH]; [congruence |].
  destruct rest as [|y rest'].
  - destruct l2; [congruence | reflexivity].
  - change ((x :: y :: rest') ++ l2) with (x :: (y :: rest') ++ l2).
    change (String.concat sep (x :: (y :: rest') ++ l2))
      with (x ++ sep ++ String.concat sep ((y :: rest') ++ l2))%string.
    rewrite IH by discriminate.
    change (String.concat sep (x :: y :: rest'))
      with (x ++ sep ++ String.concat sep (y :: rest'))%string.
    now rewrite !str_append_assoc.
Qed.

Lemma join_of_joined (sep : string) (slices : list (list string)) :
  Forall (fun slice => slice <> []) slices ->
  String.concat sep (map (String.concat sep) slices)
  = String.concat sep (List.concat slices).
Proof.
  induction 1 as [|x rest Hx Hrest IH]; [reflexivity |].
  destruct rest as [|y rest'].
  - cbn. now rewrite app_nil_r.
  - change (map (String.concat sep) (x :: y :: rest'))
      with (String.concat sep x :: map (String.concat sep) (y :: rest')).
    change (String.concat sep
              (String.concat sep x :: map (String.concat sep) (y :: rest')))
      with (String.concat sep x ++ sep
            ++ String.concat sep (map (String.concat sep) (y :: rest')))%string.
    rewrite IH.
    change (List.concat (x :: y :: rest'))
      with (x ++ List.concat (y :: rest')).
    rewrite (concat_join sep x (List.concat (y :: rest')));
      [reflexivity | assumption |].
    apply Forall_inv in Hrest. cbn [List.concat].
    destruct y; [congruence | discriminate].
Qed.

(** X19.  The chunks that [_stream_completion] yields for the words of a
    reply: every word is sent exactly once and in order, no chunk is empty
    or longer than the chunk size, there are at most 19 chunks, and the
    chunks joined by single spaces are the words joined by single
    spaces. *)
Theorem streamed_chunks_carry_every_word_once :
  forall words : list string,
    List.concat (stream_slices words) = words /\
    (List.length (stream_chunks words) <= 19)%nat /\
    Forall (fun slice =>
              slice <> [] /\
              (List.length slice <= Nat.max 1 (List.length words / 10))%nat)
           (stream_slices words) /\
    String.concat " " (stream_chunks words) = String.concat " " words.
Proof.
  intros words. unfold stream_chunks, stream_slices, range_step.
  set (n := List.length words). set (c := Nat.max 1 (n / 10)).
  assert (Hc : (1 <= c)%nat) by (unfold c; lia).
  assert (Hcover :
            List.concat (map (fun i => firstn c (skipn i words))
                        (map (fun k => (k * c)%nat)
                             (seq 0 ((n + c - 1) / c)))) = words).
  { rewrite concat_slices. apply firstn_all2.
    now apply steps_reach_the_end. }
  assert (Hslices :
            Forall (fun slice => slice <> [] /\ (List.length slice <= c)%nat)
                   (map (fun i => firstn c (skipn i words))
                        (map (fun k => (k * c)%nat)
                             (seq 0 ((n + c - 1) / c))))).
  { apply Forall_forall. intros slice HIn.
    apply in_map_iff in HIn as (i & <- & HIn).
    apply in_map_iff in HIn as (k & <- & HIn).
    apply in_seq in HIn. split.
    - assert (Hlt : (k * c < n)%nat) by (apply step_inside; lia).
      intros E. apply (f_equal (@List.length string)) in E.
      rewrite length_firstn, length_skipn in E.
      change (List.length (@nil string)) with 0%nat in E.
      unfold n in Hlt. lia.
    - rewrite length_firstn. lia. }
  split; [exact Hcover |]. split.
  - rewrite !length_map, length_seq. apply at_most_nineteen_steps.
  - split; [exact Hslices |].
    rewrite join_of_joined, Hcover; [reflexivity |].
    eapply Forall_impl; [| exact Hslices]. cbv beta. tauto.
Qed.

End Streaming.
